(** * Elastic Weight Consolidation (src/approach/oewc.py)

    A shallow embedding of the class [Appr]: the regularised loss
    [criterion], the Fisher estimator [compute_fisher_matrix_diag] and
    the post-task update [post_train_process], with the properties the
    specification states about them.

    Modelling conventions.
    - Tensor entries are exact rationals ([Qc]); rounding, infinities
      and not-a-number values of the float tensors are outside the
      model.  Where torch divides by zero (the mean of the estimate
      over no sample, the class-proportional weight over no class, the
      mean cross-entropy over no label) it writes nan and goes on; the
      model stops there with the outcome [NotFinite], and the state it
      returns with that outcome is the state at the division.  What
      the code computes from nan afterwards is outside the model: the
      statements about the values of the Importance Map carry the
      proviso that this outcome did not occur.
    - Tensors have rank 1: a shape is a length, and two shapes broadcast
      when they are equal or one of them is 1.
    - Python dictionaries keep insertion order: they are association
      lists, looked up by first match.
    - Exceptions keep the mutations made before they were raised: the
      stateful methods return an outcome together with the state. *)

From Stdlib Require Import String List ZArith QArith Qcanon Lia Bool Arith.
From Stdlib Require Import Permutation.
Import ListNotations.

Open Scope Z_scope.

(** ** Outcomes *)

Inductive Error : Type :=
| KeyError (n : string)
| IndexError
| RuntimeError
| ValueError
| ZeroDivisionError
| NotFinite.

Inductive Res (A : Type) : Type :=
| Ok (a : A)
| Err (e : Error).

Arguments Ok {A} a.
Arguments Err {A} e.

Definition rbind {A B : Type} (r : Res A) (k : A -> Res B) : Res B :=
  match r with
  | Ok a => k a
  | Err e => Err e
  end.

Notation "x <- r ;; k" := (rbind r (fun x => k))
  (at level 61, r at next level, right associativity).

(** [for x in l: acc = f acc x], stopping at the first exception. *)
Fixpoint for_each {A S : Type} (f : S -> A -> Res S) (l : list A) (acc : S) : Res S :=
  match l with
  | [] => Ok acc
  | x :: l' => acc' <- f acc x ;; for_each f l' acc'
  end.

(** The same loop over a field of [self]: when a turn raises, the
    assignments of the turns before it stay. *)
Fixpoint loop {A S : Type} (f : S -> A -> Res S) (l : list A) (acc : S) : Res unit * S :=
  match l with
  | [] => (Ok tt, acc)
  | x :: l' =>
      match f acc x with
      | Ok acc' => loop f l' acc'
      | Err e => (Err e, acc)
      end
  end.

Fixpoint mapM {A B : Type} (f : A -> Res B) (l : list A) : Res (list B) :=
  match l with
  | [] => Ok []
  | x :: l' => y <- f x ;; ys <- mapM f l' ;; Ok (y :: ys)
  end.

(** ** Tensors *)

Module Torch.

Definition Tensor : Type := list Qc.

Definition qz (z : Z) : Qc := Q2Qc (inject_Z z).

Definition half : Qc := Q2Qc (1 # 2).

(** [torch.zeros(shape)] *)
Definition zeros (shape : nat) : Tensor := repeat (qz 0) shape.

Fixpoint zip_with {A B C : Type} (f : A -> B -> C) (a : list A) (b : list B) : list C :=
  match a, b with
  | x :: a', y :: b' => f x y :: zip_with f a' b'
  | _, _ => []
  end.

(** An element-wise binary operation with broadcasting. *)
Definition broadcast (f : Qc -> Qc -> Qc) (a b : Tensor) : Res Tensor :=
  if Nat.eqb (length a) (length b) then Ok (zip_with f a b)
  else match a, b with
       | [x], _ => Ok (map (f x) b)
       | _, [y] => Ok (map (fun x => f x y) a)
       | _, _ => Err RuntimeError
       end.

Definition add : Tensor -> Tensor -> Res Tensor := broadcast Qcplus.
Definition sub : Tensor -> Tensor -> Res Tensor := broadcast Qcminus.
Definition mul : Tensor -> Tensor -> Res Tensor := broadcast Qcmult.

(** [a += b]: the result keeps the shape of [a]. *)
Definition iadd (a b : Tensor) : Res Tensor :=
  if Nat.eqb (length a) (length b) then Ok (zip_with Qcplus a b)
  else match b with
       | [y] => Ok (map (fun x => x + y)%Qc a)
       | _ => Err RuntimeError
       end.

(** [c * a] for a Python number [c]. *)
Definition scale (c : Qc) (a : Tensor) : Tensor := map (Qcmult c) a.

(** [a * k] for a Python number [k]. *)
Definition times (a : Tensor) (k : Qc) : Tensor := map (fun x => x * k)%Qc a.

(** [a.pow(2)] *)
Definition pow2 (a : Tensor) : Tensor := map (fun x => x * x)%Qc a.

(** [torch.sum(a)] *)
Definition sum (a : Tensor) : Qc := fold_left Qcplus a (qz 0).

(** [a / n] for a Python integer [n]; for [n = 0] torch fills the result
    with nan or inf. *)
Definition div_int (a : Tensor) (n : Z) : Res Tensor :=
  if Z.eqb n 0 then Err NotFinite else Ok (map (fun x => x / qz n)%Qc a).

(** Logits of one head: one row per example. *)
Definition Logits : Type := list (list Qc).

(** [torch.cat(outputs, dim=1)] *)
Definition cat_dim1 (outputs : list Logits) : Res Logits :=
  match outputs with
  | [] => Err RuntimeError
  | o :: os =>
      if forallb (fun o' => Nat.eqb (length o') (length o)) os
      then Ok (fold_left (zip_with (@app Qc)) os o)
      else Err RuntimeError
  end.

Fixpoint argmax_from (best : Qc) (ibest i : nat) (row : list Qc) : nat :=
  match row with
  | [] => ibest
  | x :: row' =>
      if Qclt_le_dec best x then argmax_from x i (S i) row'
      else argmax_from best ibest (S i) row'
  end.

(** [ignore_index] of [torch.nn.functional.cross_entropy]: a label of
    this value is left out of the mean. *)
Definition ignore_index : Z := -100.

(** A label the cross-entropy accepts for a row of logits:
    [ignore_index], or a column of the row. *)
Definition label_ok (row : list Qc) (y : Z) : bool :=
  Z.eqb y ignore_index || (Z.leb 0 y && Z.ltb y (Z.of_nat (length row))).

(** [logits.argmax(1).flatten()]: the first maximal column of every row. *)
Definition argmax_dim1 (lg : Logits) : Res (list Z) :=
  mapM (fun row => match row with
                   | [] => Err IndexError
                   | x :: row' => Ok (Z.of_nat (argmax_from x 0%nat 1%nat row'))
                   end) lg.

End Torch.

Import Torch.

(** ** Dictionaries *)

Definition Dict : Type := list (string * Tensor).

Fixpoint assoc {A : Type} (d : list (string * A)) (n : string) : option A :=
  match d with
  | [] => None
  | (k, v) :: d' => if String.eqb k n then Some v else assoc d' n
  end.

Definition dict_get (d : Dict) (n : string) : option Tensor := assoc d n.

(** [d[n] = v] *)
Fixpoint dict_set (d : Dict) (n : string) (v : Tensor) : Dict :=
  match d with
  | [] => [(n, v)]
  | (k, x) :: d' =>
      if String.eqb k n then (k, v) :: d' else (k, x) :: dict_set d' n v
  end.

Definition dict_keys (d : Dict) : list string := map fst d.

(** [n in d.keys()] *)
Definition dict_mem (d : Dict) (n : string) : bool :=
  match dict_get d n with Some _ => true | None => false end.

(** [d[n]] *)
Definition dict_item (d : Dict) (n : string) : Res Tensor :=
  match dict_get d n with Some v => Ok v | None => Err (KeyError n) end.

(** [{n: v for n, v in l}] *)
Definition dict_of (l : list (string * Tensor)) : Dict :=
  fold_left (fun d kv => dict_set d (fst kv) (snd kv)) l [].

(** ** The network and the approach object *)

Record Param : Type := mkParam {
  value : Tensor;
  requires_grad : bool;
  grad : option Tensor
}.

Definition Params : Type := list (string * Param).

(** [self.model]: [backbone] is [self.model.model.named_parameters()],
    [heads] holds the weights of the classification heads. *)
Record Net : Type := mkNet {
  backbone : Params;
  heads : list Dict;
  task_cls : list nat;
  task_offset : list Z;
  training : bool
}.

Inductive SamplingType : Type := true_labels | max_pred | multinomial.

Record Appr : Type := mkAppr {
  lamb : Qc;
  alpha : Qc;
  sampling_type : SamplingType;
  num_samples : Z;
  model : Net;
  exemplars_len : nat;
  older_params : Dict;
  fisher : Dict
}.

(** [{n: p.clone().detach() for n, p in named_parameters() if p.requires_grad}] *)
Definition snapshot (ps : Params) : Dict :=
  dict_of (map (fun np => (fst np, value (snd np)))
               (filter (fun np => requires_grad (snd np)) ps)).

(** [{n: torch.zeros(p.shape) for n, p in named_parameters() if p.requires_grad}] *)
Definition zero_map (ps : Params) : Dict :=
  dict_of (map (fun np => (fst np, zeros (length (value (snd np)))))
               (filter (fun np => requires_grad (snd np)) ps)).

(** [Appr.__init__] *)
Definition init (m : Net) (lamb0 alpha0 : Qc) (st : SamplingType) (ns : Z)
    (exemplars : nat) : Appr :=
  {| lamb := lamb0; alpha := alpha0; sampling_type := st; num_samples := ns;
     model := m; exemplars_len := exemplars;
     older_params := snapshot (backbone m);
     fisher := zero_map (backbone m) |}.

(** ** Data loaders *)

Fixpoint chunks_fuel {A : Type} (fuel k : nat) (l : list A) : list (list A) :=
  match fuel with
  | O => []
  | S fuel' =>
      match l with
      | [] => []
      | _ :: _ => firstn k l :: chunks_fuel fuel' k (skipn k l)
      end
  end.

(** Consecutive pieces of [k] elements; the last one may be shorter. *)
Definition chunks {A : Type} (k : nat) (l : list A) : list (list A) :=
  chunks_fuel (length l) k l.

Section Approach.

(** The inputs of the network. *)
Variable Image : Type.

(** [torch.utils.data.DataLoader]: [dataset] lists the examples in the
    order of the pass. *)
Record Loader : Type := mkLoader {
  batch_size : Z;
  dataset : list (Image * Z);
  drop_last : bool
}.

(** The batches one iteration over the loader yields. *)
Definition loader_batches (l : Loader) : list (list (Image * Z)) :=
  let k := Z.to_nat (batch_size l) in
  let cs := chunks k (dataset l) in
  if drop_last l then filter (fun c => Nat.eqb (length c) k) cs else cs.

(** The numerical collaborators, as functions of the weights.
    - [ce lg y]: the value of the mean cross-entropy of logits [lg]
      against labels [y], over the labels other than [ignore_index];
    - [logit bb hs tr x h c]: the logit of class [c] of head [h] on input [x];
    - [softmax_entry row c]: entry [c] of the softmax of [row];
    - [draw i probs j]: the [j]-th label drawn for row [i] by
      [torch.multinomial];
    - [grad_ce bb hs tr xs y n]: the gradient, per element, that
      [loss.backward()] adds to the buffer of backbone parameter [n], or
      [None] when the parameter takes no part in the loss. *)
Record Collab : Type := mkCollab {
  ce : Logits -> list Z -> Qc;
  logit : Dict -> list Dict -> bool -> Image -> nat -> nat -> Qc;
  softmax_entry : list Qc -> nat -> Qc;
  draw : nat -> list Qc -> nat -> Z;
  grad_ce :
    Dict -> list Dict -> bool -> list Image -> list Z -> string -> option (nat -> Qc)
}.

Variable C : Collab.

(** [torch.nn.functional.cross_entropy(lg, y)] with its defaults, on
    the CPU: the batch sizes must agree ([ValueError]), every label
    other than [ignore_index] must name a column of its row
    ([IndexError]), and the mean is taken over the labels that count,
    which is nan when there is none. *)
Definition cross_entropy (lg : Logits) (y : list Z) : Res Qc :=
  if negb (Nat.eqb (length lg) (length y)) then Err ValueError
  else if negb (forallb (fun ry => label_ok (fst ry) (snd ry)) (combine lg y))
       then Err IndexError
  else if forallb (Z.eqb ignore_index) y then Err NotFinite
  else Ok (ce C lg y).

(** [l[i]] *)
Definition index {A : Type} (l : list A) (i : nat) : Res A :=
  match nth_error l i with Some x => Ok x | None => Err IndexError end.

(** *** [criterion] *)

(** One turn of the loop over [self.model.model.named_parameters()]. *)
Definition penalty_step (s : Appr) (loss_reg : Qc) (np : string * Param) : Res Qc :=
  if dict_mem (fisher s) (fst np) then
    f <- dict_item (fisher s) (fst np) ;;
    o <- dict_item (older_params s) (fst np) ;;
    d <- sub (value (snd np)) o ;;
    w <- mul f (pow2 d) ;;
    Ok (loss_reg + sum w / qz 2)%Qc
  else Ok loss_reg.

(** The value of [loss] before the classification term is added. *)
Definition penalty (s : Appr) (t : nat) : Res Qc :=
  if Nat.ltb 0 t then
    loss_reg <- for_each (penalty_step s) (backbone (model s)) (qz 0) ;;
    Ok (qz 0 + lamb s * loss_reg)%Qc
  else Ok (qz 0).

(** The cross-entropy term of the loss. *)
Definition classification_term (s : Appr) (t : nat) (outputs : list Logits)
    (targets : list Z) : Res Qc :=
  if Nat.ltb 0 (exemplars_len s) then
    lg <- cat_dim1 outputs ;;
    cross_entropy lg targets
  else
    o <- index outputs t ;;
    off <- index (task_offset (model s)) t ;;
    cross_entropy o (map (fun y => y - off) targets).

Definition criterion (s : Appr) (t : nat) (outputs : list Logits) (targets : list Z)
    : Res Qc :=
  loss <- penalty s t ;;
  c <- classification_term s t outputs targets ;;
  Ok (loss + c)%Qc.

(** *** [compute_fisher_matrix_diag] *)

Definition values (ps : Params) : Dict :=
  map (fun np => (fst np, value (snd np))) ps.

(** [self.model.forward(images)]: one logits tensor per head, one row
    per image, as many columns as the head has classes. *)
Definition forward (m : Net) (images : list Image) : list Logits :=
  map (fun hc =>
         map (fun x =>
                map (logit C (values (backbone m)) (heads m) (training m) x (fst hc))
                    (seq 0 (snd hc)))
             images)
      (combine (seq 0 (length (task_cls m))) (task_cls m)).

(** [torch.nn.functional.softmax(lg, dim=1)] *)
Definition softmax_dim1 (lg : Logits) : Logits :=
  map (fun row => map (softmax_entry C row) (seq 0 (length row))) lg.

(** [torch.multinomial(probs, k)]: [k] labels for every row, drawn
    without replacement, so [k] cannot exceed the number of columns. *)
Definition multinomial_draws (probs : Logits) (k : nat) : Res (list (list Z)) :=
  mapM (fun irow =>
          if Nat.leb k (length (snd irow))
          then Ok (map (draw C (fst irow) (snd irow)) (seq 0 k))
          else Err RuntimeError)
       (combine (seq 0 (length probs)) probs).

(** The tensor [preds] of one batch. *)
Definition pseudo_labels (st : SamplingType) (outputs : list Logits) (targets : list Z)
    : Res (list Z) :=
  match st with
  | true_labels => Ok targets
  | max_pred => lg <- cat_dim1 outputs ;; argmax_dim1 lg
  | multinomial =>
      lg <- cat_dim1 outputs ;;
      rows <- multinomial_draws (softmax_dim1 lg) (length targets) ;;
      Ok (concat rows)
  end.

Definition set_backbone (m : Net) (ps : Params) : Net :=
  {| backbone := ps; heads := heads m; task_cls := task_cls m;
     task_offset := task_offset m; training := training m |}.

(** [self.model.train()] *)
Definition train (m : Net) : Net :=
  {| backbone := backbone m; heads := heads m; task_cls := task_cls m;
     task_offset := task_offset m; training := true |}.

(** [self.optimizer.zero_grad()]: every backbone parameter is in the
    optimizer; its buffer is reset. *)
Definition zero_grad (m : Net) : Net :=
  set_backbone m
    (map (fun np => (fst np, {| value := value (snd np);
                                requires_grad := requires_grad (snd np);
                                grad := None |}))
         (backbone m)).

(** [loss.backward()] for the cross-entropy of the batch: the gradient
    is added to the buffer of every trainable parameter of the graph. *)
Definition backward (m : Net) (images : list Image) (preds : list Z) : Net :=
  set_backbone m
    (map (fun np =>
            let p := snd np in
            if requires_grad p then
              match grad_ce C (values (backbone m)) (heads m) (training m)
                            images preds (fst np) with
              | Some g =>
                  let gt := map g (seq 0 (length (value p))) in
                  (fst np,
                   {| value := value p; requires_grad := requires_grad p;
                      grad := Some (match grad p with
                                    | None => gt
                                    | Some old => zip_with Qcplus old gt
                                    end) |})
              | None => np
              end
            else np)
         (backbone m)).

(** [if p.grad is not None: fisher[n] += p.grad.pow(2) * len(targets)] *)
Definition accumulate (len_targets : nat) (fisher0 : Dict) (np : string * Param)
    : Res Dict :=
  match grad (snd np) with
  | Some g =>
      f <- dict_item fisher0 (fst np) ;;
      f' <- iadd f (times (pow2 g) (qz (Z.of_nat len_targets))) ;;
      Ok (dict_set fisher0 (fst np) f')
  | None => Ok fisher0
  end.

(** The body of the loop over the batches. *)
Definition fisher_batch (st : SamplingType) (m : Net) (fisher0 : Dict)
    (batch : list (Image * Z)) : Res Dict * Net :=
  let images := map fst batch in
  let targets := map snd batch in
  let outputs := forward m images in
  match (preds <- pseudo_labels st outputs targets ;;
         lg <- cat_dim1 outputs ;;
         _ <- cross_entropy lg preds ;;
         Ok preds) with
  | Err e => (Err e, m)
  | Ok preds =>
      let m' := backward (zero_grad m) images preds in
      (for_each (accumulate (length targets)) (backbone m') fisher0, m')
  end.

Fixpoint fisher_loop (st : SamplingType) (batches : list (list (Image * Z)))
    (m : Net) (fisher0 : Dict) : Res Dict * Net :=
  match batches with
  | [] => (Ok fisher0, m)
  | b :: bs =>
      match fisher_batch st m fisher0 b with
      | (Ok fisher1, m') => fisher_loop st bs m' fisher1
      | (Err e, m') => (Err e, m')
      end
  end.

(** The number of batches asked for. *)
Definition n_samples_batches (s : Appr) (l : Loader) : Res Z :=
  if Z.eqb (batch_size l) 0 then Err ZeroDivisionError
  else if Z.ltb 0 (num_samples s)
       then Ok (num_samples s / batch_size l + 1)
       else Ok (Z.of_nat (length (dataset l)) / batch_size l).

(** [itertools.islice(trn_loader, n)], for a count within [sys.maxsize]. *)
Definition islice (l : Loader) (n : Z) : Res (list (list (Image * Z))) :=
  if Z.ltb n 0 then Err ValueError
  else Ok (firstn (Z.to_nat n) (loader_batches l)).

(** [{n: (p / n_samples) for n, p in fisher.items()}] *)
Definition mean_map (acc : Dict) (n_samples : Z) : Res Dict :=
  mapM (fun kv => v <- div_int (snd kv) n_samples ;; Ok (fst kv, v)) acc.

Definition set_model (s : Appr) (m : Net) : Appr :=
  {| lamb := lamb s; alpha := alpha s; sampling_type := sampling_type s;
     num_samples := num_samples s; model := m; exemplars_len := exemplars_len s;
     older_params := older_params s; fisher := fisher s |}.

Definition set_older_params (s : Appr) (d : Dict) : Appr :=
  {| lamb := lamb s; alpha := alpha s; sampling_type := sampling_type s;
     num_samples := num_samples s; model := model s; exemplars_len := exemplars_len s;
     older_params := d; fisher := fisher s |}.

Definition set_fisher (s : Appr) (d : Dict) : Appr :=
  {| lamb := lamb s; alpha := alpha s; sampling_type := sampling_type s;
     num_samples := num_samples s; model := model s; exemplars_len := exemplars_len s;
     older_params := older_params s; fisher := d |}.

Definition compute_fisher_matrix_diag (l : Loader) (s : Appr) : Res Dict * Appr :=
  let fisher0 := zero_map (backbone (model s)) in
  match n_samples_batches s l with
  | Err e => (Err e, s)
  | Ok n =>
      let m1 := train (model s) in
      match islice l n with
      | Err e => (Err e, set_model s m1)
      | Ok batches =>
          let (r, m2) := fisher_loop (sampling_type s) batches m1 fisher0 in
          (acc <- r ;; mean_map acc (n * batch_size l), set_model s m2)
      end
  end.

(** *** [post_train_process] *)

(** [sum(self.model.task_cls[:t]) / sum(self.model.task_cls)]; over a
    class total of zero torch gives the weight nan. *)
Definition class_alpha (m : Net) (t : nat) : Res Qc :=
  match task_cls m with
  | [] => Err ZeroDivisionError
  | _ :: _ =>
      let total := list_sum (task_cls m) in
      if Nat.eqb total 0 then Err NotFinite
      else Ok (qz (Z.of_nat (list_sum (firstn t (task_cls m)))) / qz (Z.of_nat total))%Qc
  end.

(** The fusion weight of one turn of the loop. *)
Definition fusion_weight (s : Appr) (t : nat) : Res Qc :=
  if Qc_eq_dec (alpha s) (qz (-1)) then class_alpha (model s) t else Ok (alpha s).

(** One turn of the loop over [self.fisher.keys()]. *)
Definition fuse_step (s : Appr) (t : nat) (curr_fisher : Dict) (fisher0 : Dict)
    (n : string) : Res Dict :=
  a <- fusion_weight s t ;;
  old <- dict_item fisher0 n ;;
  c <- dict_item curr_fisher n ;;
  v <- add (scale a old) (scale (qz 1 - a)%Qc c) ;;
  Ok (dict_set fisher0 n v).

Definition post_train_process (t : nat) (l : Loader) (s : Appr) : Res unit * Appr :=
  let s1 := set_older_params s (snapshot (backbone (model s))) in
  match compute_fisher_matrix_diag l s1 with
  | (Err e, s2) => (Err e, s2)
  | (Ok curr_fisher, s2) =>
      let (r, f) := loop (fuse_step s2 t curr_fisher) (dict_keys (fisher s2)) (fisher s2) in
      (r, set_fisher s2 f)
  end.

End Approach.

Arguments batch_size {Image} l.
Arguments dataset {Image} l.
Arguments drop_last {Image} l.
Arguments loader_batches {Image} l.
Arguments ce {Image} c lg y.
Arguments logit {Image} c bb hs tr x h k.
Arguments softmax_entry {Image} c row k.
Arguments draw {Image} c i probs j.
Arguments grad_ce {Image} c bb hs tr xs y n.
Arguments cross_entropy {Image} C lg y.
Arguments classification_term {Image} C s t outputs targets.
Arguments criterion {Image} C s t outputs targets.
Arguments forward {Image} C m images.
Arguments softmax_dim1 {Image} C lg.
Arguments multinomial_draws {Image} C probs k.
Arguments pseudo_labels {Image} C st outputs targets.
Arguments backward {Image} C m images preds.
Arguments fisher_batch {Image} C st m fisher0 batch.
Arguments fisher_loop {Image} C st batches m fisher0.
Arguments n_samples_batches {Image} s l.
Arguments islice {Image} l n.
Arguments compute_fisher_matrix_diag {Image} C l s.
Arguments post_train_process {Image} C t l s.

(** ** Vocabulary of the specification *)

Definition trainable (ps : Params) : Params :=
  filter (fun np => requires_grad (snd np)) ps.

(** The keys of a parameter map with the shapes of their tensors. *)
Definition shape_of (d : Dict) : list (string * nat) :=
  map (fun kv => (fst kv, length (snd kv))) d.

Definition param_shapes (ps : Params) : list (string * nat) :=
  map (fun np => (fst np, length (value (snd np)))) (trainable ps).

(** The invariant of the data model: Snapshot and Importance Map hold
    one entry per trainable backbone parameter, of the shape of that
    parameter. *)
Definition parity (s : Appr) : Prop :=
  NoDup (map fst (backbone (model s))) /\
  shape_of (fisher s) = param_shapes (backbone (model s)) /\
  shape_of (older_params s) = param_shapes (backbone (model s)).

Definition nonneg_tensor (a : Tensor) : Prop := Forall (fun x => (qz 0 <= x)%Qc) a.

(** Every tensor of the map satisfies [Q]. *)
Definition dict_all (Q : Tensor -> Prop) (d : Dict) : Prop :=
  Forall (fun kv => Q (snd kv)) d.

Definition nonneg (d : Dict) : Prop := dict_all nonneg_tensor d.

Definition all_zero (a : Tensor) : Prop := a = zeros (length a).

(** Every label names a column of its row of logits: one label per row,
    none of them ignored. *)
Definition labels_in_range (lg : Logits) (y : list Z) : Prop :=
  Forall2 (fun row l => 0 <= l < Z.of_nat (length row)) lg y.

(** [sys.maxsize] of a 64-bit interpreter, the largest count
    [itertools.islice] takes. *)
Definition sys_maxsize : Z := 2 ^ 63 - 1.


(** [sum over the elements of f * (p - o)^2] *)
Definition weighted_drift (f p o : Tensor) : Qc :=
  sum (zip_with Qcmult f (pow2 (zip_with Qcminus p o))).

(** [Importance[param] * (current_value - Snapshot[param])^2], summed
    over the elements of a backbone parameter; a parameter without
    importance adds nothing. *)
Definition ewc_term (s : Appr) (np : string * Param) : Qc :=
  match dict_get (fisher s) (fst np), dict_get (older_params s) (fst np) with
  | Some f, Some o => weighted_drift f (value (snd np)) o
  | _, _ => qz 0
  end.

(** The sum of [ewc_term] over all backbone parameters. *)
Definition ewc_sum (s : Appr) : Qc :=
  sum (map (ewc_term s) (backbone (model s))).

(** Two shapes broadcast together, and the shape of the result. *)
Definition broadcastable (a b : nat) : bool :=
  Nat.eqb a b || Nat.eqb a 1 || Nat.eqb b 1.

Definition broadcast_shape (a b : nat) : nat :=
  if Nat.eqb a b then a else if Nat.eqb a 1 then b else a.

(** The regularised loss accepts a backbone parameter when the
    Importance Map does not name it, or when the Snapshot names it too
    and the shapes of parameter, Snapshot and importance broadcast. *)
Definition accepted (s : Appr) (np : string * Param) : bool :=
  match dict_get (fisher s) (fst np) with
  | None => true
  | Some f =>
      match dict_get (older_params s) (fst np) with
      | None => false
      | Some o =>
          broadcastable (length (value (snd np))) (length o)
          && broadcastable (length f)
               (broadcast_shape (length (value (snd np))) (length o))
      end
  end.


(** What the loops of the estimator keep: the keys and shapes of the
    local map, and the sign of its entries. *)
Definition est_inv (sh : list (string * nat)) (f : Dict) : Prop :=
  shape_of f = sh /\ nonneg f.



(** [alpha * old_value + (1 - alpha) * current_value], element by element. *)
Definition fuse (a : Qc) (old c : Tensor) : Tensor :=
  zip_with (fun x y => a * x + (qz 1 - a) * y)%Qc old c.

(** ** Concrete configurations

    The scenario of the specification: a backbone of two parameters of
    shape (1,), two heads of 2 and 3 classes, lambda = 1000. *)

Module Example.

Open Scope string_scope.

Definition param (v : Tensor) : Param :=
  {| value := v; requires_grad := true; grad := None |}.

(** Collaborators over inputs without content: constant loss, logits
    growing with the class, gradient 2 on every element. *)
Definition collab : Collab unit :=
  {| ce := fun _ _ => qz 7;
     logit := fun _ _ _ _ _ c => qz (Z.of_nat c);
     softmax_entry := fun _ _ => half;
     draw := fun _ _ j => Z.of_nat j;
     grad_ce := fun _ _ _ _ _ _ => Some (fun _ => qz 2) |}.

Definition net : Net :=
  {| backbone := [("w1", param [qz 1]); ("w2", param [qz 3])];
     heads := [];
     task_cls := [2; 3]%nat;
     task_offset := [0; 2];
     training := false |}.

(** During task 1: importance 4 per parameter, drift 1 per parameter. *)
Definition ewc_state : Appr :=
  {| lamb := qz 1000; alpha := half; sampling_type := max_pred; num_samples := -1;
     model := net; exemplars_len := 0;
     older_params := [("w1", [qz 0]); ("w2", [qz 2])];
     fisher := [("w1", [qz 4]); ("w2", [qz 4])] |}.

(** Outputs of the two heads for one example of class 3 (task 1). *)
Definition outputs : list Logits := [[[qz 0; qz 1]]; [[qz 0; qz 1; qz 2]]].

Definition targets : list Z := [3].

(** The network during task 0: one head. *)
Definition net0 : Net :=
  {| backbone := [("w1", param [qz 1]); ("w2", param [qz 3])];
     heads := [];
     task_cls := [2]%nat;
     task_offset := [0];
     training := false |}.

(** The object as constructed, with the default fusion weight 1/2. *)
Definition fresh : Appr := init net0 (qz 1000) half max_pred (-1) 0.

(** Two examples in batches of one. *)
Definition loader : Loader unit :=
  {| batch_size := 1; dataset := [(tt, 0); (tt, 1)]; drop_last := false |}.

(** Three examples in batches of two: the loader yields two batches. *)
Definition odd_loader : Loader unit :=
  {| batch_size := 2; dataset := [(tt, 0); (tt, 1); (tt, 1)]; drop_last := false |}.

(** The backbone has a parameter the maps do not know. *)
Definition restructured : Appr :=
  {| lamb := qz 1000; alpha := half; sampling_type := max_pred; num_samples := -1;
     model := net; exemplars_len := 0;
     older_params := [("w1", [qz 0])];
     fisher := [("w1", [qz 4])] |}.

(** Exemplars of past tasks are available. *)
Definition joint_state : Appr :=
  {| lamb := qz 1000; alpha := half; sampling_type := max_pred; num_samples := -1;
     model := net; exemplars_len := 3;
     older_params := [("w1", [qz 0]); ("w2", [qz 2])];
     fisher := [("w1", [qz 4]); ("w2", [qz 4])] |}.

(** Three tasks of 2, 3 and 5 classes, class-proportional fusion. *)
Definition net3 : Net :=
  {| backbone := [("w1", param [qz 1]); ("w2", param [qz 3])];
     heads := [];
     task_cls := [2; 3; 5]%nat;
     task_offset := [0; 2; 5];
     training := false |}.

Definition class_state : Appr :=
  {| lamb := qz 1000; alpha := qz (-1); sampling_type := max_pred; num_samples := -1;
     model := net3; exemplars_len := 0;
     older_params := [("w1", [qz 0]); ("w2", [qz 2])];
     fisher := [("w1", [qz 4]); ("w2", [qz 4])] |}.



(** The network with gradients left in the buffers. *)
Definition stale_net : Net :=
  {| backbone := [("w1", {| value := [qz 1]; requires_grad := true;
                            grad := Some [qz 9] |});
                  ("w2", {| value := [qz 3]; requires_grad := true;
                            grad := Some [qz 9] |})];
     heads := [];
     task_cls := [2; 3]%nat;
     task_offset := [0; 2];
     training := false |}.

(** The estimate of the collaborators above: 2 * 2 under every name. *)
Definition estimate : Dict := [("w1", [qz 4]); ("w2", [qz 4])].

End Example.

(** ** Comparing maps *)

Fixpoint tensor_eqb (a b : Tensor) : bool :=
  match a, b with
  | [], [] => true
  | x :: a', y :: b' => Qc_eq_bool x y && tensor_eqb a' b'
  | _, _ => false
  end.

Fixpoint dict_eqb (d1 d2 : Dict) : bool :=
  match d1, d2 with
  | [], [] => true
  | (k, x) :: d1', (k', y) :: d2' =>
      String.eqb k k' && tensor_eqb x y && dict_eqb d1' d2'
  | _, _ => false
  end.

Definition estimate_eqb (r : Res Dict) (d : Dict) : bool :=
  match r with
  | Ok d' => dict_eqb d' d
  | Err _ => false
  end.

(** ** The other methods of the class *)

(** A parameter of [self.model]: of the backbone, or of head [h]. *)
Inductive ParamRef : Type :=
| BackboneParam (n : string)
| HeadParam (h : nat) (n : string).

(** [self.model.model.parameters()] *)
Definition backbone_refs (m : Net) : list ParamRef :=
  map (fun np => BackboneParam (fst np)) (backbone m).

(** [self.model.heads[h].parameters()] *)
Definition head_refs (h : nat) (d : Dict) : list ParamRef :=
  map (fun kv => HeadParam h (fst kv)) d.

(** [self.model.parameters()] *)
Definition model_parameters (m : Net) : list ParamRef :=
  backbone_refs m
  ++ concat (map (fun hd => head_refs (fst hd) (snd hd))
                 (combine (seq 0 (length (heads m))) (heads m))).

(** [_get_optimizer]: the parameters handed to the optimizer; the
    learning rate, weight decay and momentum are passed on as they are. *)
Definition _get_optimizer (s : Appr) : list ParamRef :=
  if Nat.eqb (exemplars_len s) 0 && Nat.ltb 1 (length (heads (model s)))
  then backbone_refs (model s)
       ++ head_refs (length (heads (model s)) - 1) (last (heads (model s)) [])
  else model_parameters (model s).

(** [train_loop], the choice of the training stream: with exemplars and
    t > 0 a new shuffling loader over [trn_loader.dataset +
    self.exemplars_dataset], with the batch size of [trn_loader];
    [shuffle] is the order of its pass. *)
Definition train_loop_loader {Image : Type}
    (shuffle : list (Image * Z) -> list (Image * Z)) (t : nat)
    (trn_loader : Loader Image) (exemplars_dataset : list (Image * Z))
    : Loader Image :=
  if Nat.ltb 0 (length exemplars_dataset) && Nat.ltb 0 t
  then {| batch_size := batch_size trn_loader;
          dataset := shuffle (dataset trn_loader ++ exemplars_dataset);
          drop_last := false |}
  else trn_loader.

(** *** [compute_orth_loss] *)

(** The number of entries of one attention map, 197 x 197. *)
Definition attention_size : nat := 197 * 197.

(** [1e-08] *)
Definition eps : Qc := Q2Qc (1 # 100000000).

(** [a.view(-1, 197, 197)]: the maps of a tensor, which must hold a
    positive multiple of 197 * 197 entries. *)
Definition view_attention (a : Tensor) : Res (list Tensor) :=
  if Nat.eqb (length a) 0 || negb (Nat.eqb (length a mod attention_size) 0)
  then Err RuntimeError
  else Ok (chunks attention_size a).

(** [al - ol] for two stacks of maps: the numbers of maps broadcast. *)
Definition sub_maps (al ol : list Tensor) : Res (list Tensor) :=
  if Nat.eqb (length al) (length ol) then Ok (zip_with (zip_with Qcminus) al ol)
  else match al, ol with
       | [x], _ => Ok (map (fun y => zip_with Qcminus x y) ol)
       | _, [y] => Ok (map (fun x => zip_with Qcminus x y) al)
       | _, _ => Err RuntimeError
       end.

(** [v.mean()] *)
Definition mean (v : Tensor) : Res Qc :=
  if Nat.eqb (length v) 0 then Err NotFinite
  else Ok (sum v / qz (Z.of_nat (length v)))%Qc.

Section OrthLoss.

(** The square root of [torch.linalg.matrix_norm]. *)
Variable sqrt : Qc -> Qc.

(** The Frobenius norm of one map. *)
Definition matrix_norm (a : Tensor) : Qc := sqrt (sum (pow2 a)).

(** [(matrix_norm((al - ol) + 1e-08) * float(i)).mean()] *)
Definition orth_term (i : nat) (al ol : list Tensor) : Res Qc :=
  d <- sub_maps al ol ;;
  mean (map (fun a => matrix_norm (map (fun x => x + eps)%Qc a) * qz (Z.of_nat i))%Qc d).

(** One turn of the loop over [range(len(attention_list))]. *)
Definition orth_step (old_attention_list attention_list : list Tensor)
    (totloss : Qc) (i : nat) : Res Qc :=
  a <- index attention_list i ;;
  al <- view_attention a ;;
  o <- index old_attention_list i ;;
  ol <- view_attention o ;;
  v <- orth_term i al ol ;;
  Ok (totloss + v)%Qc.

Definition compute_orth_loss (old_attention_list attention_list : list Tensor)
    : Res Qc :=
  for_each (orth_step old_attention_list attention_list)
           (seq 0 (length attention_list)) (qz 0).

(** Layer [i] of both lists is well formed, and [u] is the mean norm of
    the difference of its maps: the term of the layer at weight 1. *)
Definition layer_distance (old_attention_list attention_list : list Tensor)
    (i : nat) (u : Qc) : Prop :=
  exists a o al ol,
    nth_error attention_list i = Some a /\ view_attention a = Ok al
    /\ nth_error old_attention_list i = Some o /\ view_attention o = Ok ol
    /\ orth_term 1 al ol = Ok u.

(** The mean norm of the difference of a tensor of one map with
    itself: the norm of a map filled with [1e-08]. *)
Definition single_distance (z : Tensor) : Qc :=
  (sum [matrix_norm (map (fun x => x + eps)%Qc (zip_with Qcminus z z))
        * qz (Z.of_nat 1)]
   / qz (Z.of_nat 1))%Qc.

End OrthLoss.

(** ** The terms of the estimate *)

Section Terms.

Context {Image : Type} (C : Collab Image).

(** The pseudo-labels of a batch once the cross-entropy has accepted
    them: the part of the loop body before [zero_grad]. *)
Definition batch_labels (st : SamplingType) (m : Net) (batch : list (Image * Z))
    : Res (list Z) :=
  preds <- pseudo_labels C st (forward C m (map fst batch)) (map snd batch) ;;
  lg <- cat_dim1 (forward C m (map fst batch)) ;;
  _ <- cross_entropy C lg preds ;;
  Ok preds.

(** [p.grad.pow(2) * len(targets)] for the parameter [n], of [shape]
    elements, at one batch; zero for a parameter without gradient. *)
Definition batch_term (st : SamplingType) (m : Net) (batch : list (Image * Z))
    (n : string) (shape : nat) : Tensor :=
  match batch_labels st m batch with
  | Ok preds =>
      match grad_ce C (values (backbone m)) (heads m) (training m)
                    (map fst batch) preds n with
      | Some g => times (pow2 (map g (seq 0 shape))) (qz (Z.of_nat (length batch)))
      | None => zeros shape
      end
  | Err _ => zeros shape
  end.

(** The sum of the terms of the batches, element by element. *)
Definition squares_sum (st : SamplingType) (m : Net)
    (batches : list (list (Image * Z))) (n : string) (shape : nat) : Tensor :=
  fold_left (fun acc b => zip_with Qcplus acc (batch_term st m b n shape))
            batches (zeros shape).

End Terms.

(** ** Further configurations *)

Module Scenario.

Open Scope string_scope.

(** The regularisation is switched off: lambda = 0. *)
Definition unweighted : Appr :=
  {| lamb := qz 0; alpha := half; sampling_type := max_pred; num_samples := -1;
     model := Example.net; exemplars_len := 0;
     older_params := [("w1", [qz 0]); ("w2", [qz 2])];
     fisher := [("w1", [qz 4]); ("w2", [qz 4])] |}.

(** lambda = 0, and the Snapshot lacks a name of the Importance Map. *)
Definition unweighted_missing : Appr :=
  {| lamb := qz 0; alpha := half; sampling_type := max_pred; num_samples := -1;
     model := Example.net; exemplars_len := 0;
     older_params := [];
     fisher := [("w1", [qz 4])] |}.

(** The second parameter is frozen: it has no gradient, while the
    Importance Map still names it. *)
Definition frozen_net : Net :=
  {| backbone := [("w1", Example.param [qz 1]);
                  ("w2", {| value := [qz 3]; requires_grad := false; grad := None |})];
     heads := [];
     task_cls := [2; 3]%nat;
     task_offset := [0; 2];
     training := false |}.

Definition frozen : Appr :=
  {| lamb := qz 1000; alpha := half; sampling_type := max_pred; num_samples := -1;
     model := frozen_net; exemplars_len := 0;
     older_params := [("w1", [qz 0]); ("w2", [qz 2])];
     fisher := [("w1", [qz 4]); ("w2", [qz 4])] |}.

(** The estimate over the network with the frozen parameter. *)
Definition frozen_estimate : Dict := [("w1", [qz 4])].

(** A budget of 7 samples. *)
Definition budgeted : Appr :=
  {| lamb := qz 1000; alpha := half; sampling_type := max_pred; num_samples := 7;
     model := Example.net; exemplars_len := 0;
     older_params := [("w1", [qz 0]); ("w2", [qz 2])];
     fisher := [("w1", [qz 4]); ("w2", [qz 4])] |}.

(** The estimator uses the labels of the dataset. *)
Definition supervised : Appr :=
  {| lamb := qz 1000; alpha := half; sampling_type := true_labels; num_samples := 7;
     model := Example.net; exemplars_len := 0;
     older_params := [("w1", [qz 0]); ("w2", [qz 2])];
     fisher := [("w1", [qz 4]); ("w2", [qz 4])] |}.

(** Two examples for batches of five. *)
Definition short_loader : Loader unit :=
  {| batch_size := 5; dataset := [(tt, 0); (tt, 1)]; drop_last := false |}.

Definition unbatched_loader : Loader unit :=
  {| batch_size := 0; dataset := [(tt, 0); (tt, 1)]; drop_last := false |}.

(** Five examples in batches of two, without the last partial batch. *)
Definition dropping_loader : Loader unit :=
  {| batch_size := 2;
     dataset := [(tt, 0); (tt, 1); (tt, 0); (tt, 1); (tt, 0)];
     drop_last := true |}.

(** Two heads with one parameter each. *)
Definition headed_net : Net :=
  {| backbone := [("w1", Example.param [qz 1]); ("w2", Example.param [qz 3])];
     heads := [[("weight", [qz 1; qz 2])]; [("weight", [qz 1; qz 2; qz 3])]];
     task_cls := [2; 3]%nat;
     task_offset := [0; 2];
     training := false |}.

Definition headed (exemplars : nat) : Appr :=
  {| lamb := qz 1000; alpha := half; sampling_type := max_pred; num_samples := -1;
     model := headed_net; exemplars_len := exemplars;
     older_params := [("w1", [qz 0]); ("w2", [qz 2])];
     fisher := [("w1", [qz 4]); ("w2", [qz 4])] |}.

(** One attention map of zeros. *)
Definition flat_attention : Tensor := zeros attention_size.

End Scenario.

(** * Properties *)

(** The value of a closed expression over the rationals. *)
Ltac qc_value := vm_compute; apply f_equal; apply Qc_is_canon; reflexivity.

(** The names of a concrete network are distinct. *)
Ltac distinct_names := simpl; repeat constructor; simpl; intuition discriminate.

Lemma Qc_eq_bool_refl (x : Qc) : Qc_eq_bool x x = true.
Proof.
  unfold Qc_eq_bool. destruct (Qc_eq_dec x x) as [_|H]; [reflexivity|].
  exfalso. apply H. reflexivity.
Qed.

Lemma tensor_eqb_eq (a b : Tensor) : tensor_eqb a b = true <-> a = b.
Proof.
  revert b. induction a as [|x a IH]; intros [|y b]; simpl; split;
    try discriminate; try reflexivity.
  - intros H. apply andb_prop in H. destruct H as [Hx Hab].
    apply Qc_eq_bool_correct in Hx. apply IH in Hab. congruence.
  - intros H. injection H as <- <-. rewrite Qc_eq_bool_refl. simpl.
    apply IH. reflexivity.
Qed.

Lemma dict_eqb_eq (d1 d2 : Dict) : dict_eqb d1 d2 = true <-> d1 = d2.
Proof.
  revert d2. induction d1 as [|[k x] d1 IH]; intros [|[k' y] d2]; simpl; split;
    try discriminate; try reflexivity.
  - intros H. apply andb_prop in H. destruct H as [H Hd].
    apply andb_prop in H. destruct H as [Hk Hx].
    apply String.eqb_eq in Hk. apply tensor_eqb_eq in Hx. apply IH in Hd. congruence.
  - intros H. injection H as <- <- <-. rewrite String.eqb_refl. simpl.
    rewrite (proj2 (tensor_eqb_eq x x) eq_refl). simpl. apply IH. reflexivity.
Qed.

Lemma dict_eqb_neq (d1 d2 : Dict) : dict_eqb d1 d2 = false -> d1 <> d2.
Proof.
  intros H E. apply dict_eqb_eq in E. congruence.
Qed.

Lemma estimate_eqb_eq (r : Res Dict) (d : Dict) : estimate_eqb r d = true -> r = Ok d.
Proof.
  destruct r as [d'|e]; simpl; [|discriminate].
  intros H. apply dict_eqb_eq in H. congruence.
Qed.

(** ** Arithmetic of the entries *)

Lemma qz_0 : qz 0 = 0%Qc.
Proof. reflexivity. Qed.

Lemma qz_1 : qz 1 = 1%Qc.
Proof. reflexivity. Qed.

Lemma inv_qz_2 : (/ qz 2)%Qc = half.
Proof. apply Qc_is_canon. reflexivity. Qed.

Lemma fold_plus_acc (l : list Qc) (a : Qc) :
  fold_left Qcplus l a = (a + fold_left Qcplus l 0)%Qc.
Proof.
  revert a. induction l as [|x l IH]; intros a; simpl.
  - ring.
  - rewrite IH. rewrite (IH (0 + x)%Qc). ring.
Qed.

Lemma sum_nil : sum [] = 0%Qc.
Proof. reflexivity. Qed.

Lemma sum_cons (x : Qc) (l : list Qc) : sum (x :: l) = (x + sum l)%Qc.
Proof.
  unfold sum. simpl. rewrite qz_0. rewrite fold_plus_acc. ring.
Qed.

Lemma Qc_sq_nonneg (x : Qc) : (0 <= x * x)%Qc.
Proof.
  destruct (Qclt_le_dec x 0) as [Hneg|Hpos].
  - replace (x * x)%Qc with ((- x) * (- x))%Qc by ring.
    assert (H : (0 <= - x)%Qc).
    { apply Qclt_le_weak in Hneg. apply Qcopp_le_compat in Hneg.
      replace (- 0)%Qc with 0%Qc in Hneg by ring. exact Hneg. }
    replace 0%Qc with (0 * - x)%Qc by ring.
    apply Qcmult_le_compat_r; assumption.
  - replace 0%Qc with (0 * x)%Qc by ring.
    apply Qcmult_le_compat_r; assumption.
Qed.

Lemma Qc_mult_nonneg (x y : Qc) : (0 <= x)%Qc -> (0 <= y)%Qc -> (0 <= x * y)%Qc.
Proof.
  intros Hx Hy. replace 0%Qc with (0 * y)%Qc by ring.
  apply Qcmult_le_compat_r; assumption.
Qed.

Lemma Qc_plus_nonneg (x y : Qc) : (0 <= x)%Qc -> (0 <= y)%Qc -> (0 <= x + y)%Qc.
Proof.
  intros Hx Hy. replace 0%Qc with (0 + 0)%Qc by ring.
  apply Qcplus_le_compat; assumption.
Qed.

Lemma qz_nonneg (z : Z) : 0 <= z -> (0 <= qz z)%Qc.
Proof.
  intros Hz. unfold Qcle, qz, Q2Qc, this. rewrite !Qred_correct.
  unfold Qle. simpl. lia.
Qed.

Lemma qz_pos (z : Z) : 0 < z -> (0 < qz z)%Qc.
Proof.
  intros Hz. unfold Qclt, qz, Q2Qc, this. rewrite !Qred_correct.
  unfold Qlt. simpl. lia.
Qed.


Lemma Qc_inv_nonneg (x : Qc) : (0 < x)%Qc -> (0 <= / x)%Qc.
Proof.
  intros Hx. unfold Qcle, Qclt, Qcinv, Q2Qc in *. cbn [this] in *.
  rewrite !Qred_correct in *.
  apply Qlt_le_weak. apply Qinv_lt_0_compat. exact Hx.
Qed.

Lemma Qc_div_nonneg (x y : Qc) : (0 <= x)%Qc -> (0 < y)%Qc -> (0 <= x / y)%Qc.
Proof.
  intros Hx Hy. unfold Qcdiv. apply Qc_mult_nonneg; [assumption|].
  apply Qc_inv_nonneg. assumption.
Qed.


(** ** Dictionaries *)

Section Assoc.

Context {A : Type}.
Implicit Types (d : list (string * A)) (n : string).

Lemma assoc_notin d n : ~ In n (map fst d) -> assoc d n = None.
Proof.
  induction d as [|[k v] d IH]; simpl; intros Hn; [reflexivity|].
  destruct (String.eqb_spec k n) as [->|Hkn].
  - exfalso. apply Hn. left. reflexivity.
  - apply IH. intros Hin. apply Hn. right. exact Hin.
Qed.

Lemma assoc_some_in d n v : assoc d n = Some v -> In (n, v) d.
Proof.
  induction d as [|[k x] d IH]; simpl; intros H; [discriminate|].
  destruct (String.eqb_spec k n) as [->|Hkn].
  - injection H as ->. left. reflexivity.
  - right. apply IH. exact H.
Qed.

Lemma assoc_some_key d n v : assoc d n = Some v -> In n (map fst d).
Proof.
  intros H. apply assoc_some_in in H.
  apply (in_map fst) in H. exact H.
Qed.

Lemma assoc_in_nodup d n v : NoDup (map fst d) -> In (n, v) d -> assoc d n = Some v.
Proof.
  induction d as [|[k x] d IH]; simpl; intros Hnd Hin; [contradiction|].
  inversion Hnd as [|? ? Hk Hnd']; subst.
  destruct Hin as [E|Hin].
  - injection E as -> ->. rewrite String.eqb_refl. reflexivity.
  - destruct (String.eqb_spec k n) as [->|Hkn].
    + exfalso. apply Hk. apply (in_map fst) in Hin. exact Hin.
    + apply IH; assumption.
Qed.

Lemma assoc_map {B : Type} (g : A -> B) d n :
  assoc (map (fun kv => (fst kv, g (snd kv))) d) n = option_map g (assoc d n).
Proof.
  induction d as [|[k x] d IH]; simpl; [reflexivity|].
  destruct (String.eqb k n); [reflexivity|exact IH].
Qed.

End Assoc.

Lemma dict_get_set_same (d : Dict) n v : dict_get (dict_set d n v) n = Some v.
Proof.
  unfold dict_get. induction d as [|[k x] d IH]; simpl.
  - rewrite String.eqb_refl. reflexivity.
  - destruct (String.eqb_spec k n) as [->|Hkn]; simpl.
    + rewrite String.eqb_refl. reflexivity.
    + destruct (String.eqb_spec k n); [contradiction|exact IH].
Qed.

Lemma dict_get_set_other (d : Dict) n m v :
  n <> m -> dict_get (dict_set d n v) m = dict_get d m.
Proof.
  unfold dict_get. intros Hnm. induction d as [|[k x] d IH]; simpl.
  - destruct (String.eqb_spec n m); [contradiction|reflexivity].
  - destruct (String.eqb_spec k n) as [->|Hkn]; simpl.
    + destruct (String.eqb_spec n m); [contradiction|reflexivity].
    + rewrite IH. reflexivity.
Qed.

Lemma dict_set_keys (d : Dict) n v :
  In n (dict_keys d) -> dict_keys (dict_set d n v) = dict_keys d.
Proof.
  unfold dict_keys. induction d as [|[k x] d IH]; simpl; intros Hin; [contradiction|].
  destruct (String.eqb_spec k n) as [->|Hkn]; simpl; [reflexivity|].
  f_equal. apply IH. destruct Hin; [contradiction|assumption].
Qed.

Lemma dict_set_shape (d : Dict) n v old :
  dict_get d n = Some old -> length v = length old ->
  shape_of (dict_set d n v) = shape_of d.
Proof.
  unfold dict_get, shape_of. induction d as [|[k x] d IH]; simpl; intros Hg Hl; [discriminate|].
  destruct (String.eqb_spec k n) as [->|Hkn]; simpl.
  - injection Hg as ->. rewrite Hl. reflexivity.
  - f_equal. apply IH; assumption.
Qed.

Lemma dict_set_same (d : Dict) n v : dict_get d n = Some v -> dict_set d n v = d.
Proof.
  unfold dict_get. induction d as [|[k x] d IH]; simpl; intros Hg; [discriminate|].
  destruct (String.eqb_spec k n) as [->|Hkn].
  - injection Hg as ->. reflexivity.
  - f_equal. apply IH. exact Hg.
Qed.

Lemma dict_set_notin (d : Dict) n v :
  ~ In n (dict_keys d) -> dict_set d n v = d ++ [(n, v)].
Proof.
  unfold dict_keys. induction d as [|[k x] d IH]; simpl; intros Hn; [reflexivity|].
  destruct (String.eqb_spec k n) as [->|Hkn].
  - exfalso. apply Hn. left. reflexivity.
  - f_equal. apply IH. intros Hin. apply Hn. right. exact Hin.
Qed.

Lemma dict_of_from (l acc : list (string * Tensor)) :
  NoDup (map fst (acc ++ l)) ->
  fold_left (fun d kv => dict_set d (fst kv) (snd kv)) l acc = acc ++ l.
Proof.
  revert acc. induction l as [|[k x] l IH]; intros acc Hnd; simpl.
  - rewrite app_nil_r. reflexivity.
  - rewrite dict_set_notin.
    + rewrite IH; rewrite <- app_assoc; [reflexivity|exact Hnd].
    + rewrite map_app in Hnd. simpl in Hnd.
      apply NoDup_remove_2 in Hnd. intros Hin. apply Hnd.
      apply in_or_app. left. exact Hin.
Qed.

(** A comprehension over distinct names lists its items in order. *)
Lemma dict_of_nodup (l : list (string * Tensor)) : NoDup (map fst l) -> dict_of l = l.
Proof.
  intros Hnd. unfold dict_of. apply (dict_of_from l []). exact Hnd.
Qed.

Lemma dict_ext (d1 d2 : Dict) :
  dict_keys d1 = dict_keys d2 -> NoDup (dict_keys d1) ->
  (forall n, In n (dict_keys d1) -> dict_get d1 n = dict_get d2 n) -> d1 = d2.
Proof.
  unfold dict_keys, dict_get. revert d2.
  induction d1 as [|[k x] d1 IH]; intros [|[k' x'] d2]; simpl; intros Hk Hnd Hg;
    try discriminate; [reflexivity|].
  injection Hk as <- Hk. inversion Hnd as [|? ? Hnk Hnd']; subst.
  assert (Hx : x = x').
  { specialize (Hg k (or_introl eq_refl)). rewrite String.eqb_refl in Hg.
    injection Hg as ->. reflexivity. }
  subst x'. f_equal. apply IH; [exact Hk|exact Hnd'|].
  intros n Hin. specialize (Hg n (or_intror Hin)).
  destruct (String.eqb_spec k n) as [->|Hkn]; [contradiction|exact Hg].
Qed.

Lemma filter_keys_nodup {A : Type} (f : string * A -> bool) (l : list (string * A)) :
  NoDup (map fst l) -> NoDup (map fst (filter f l)).
Proof.
  induction l as [|[k x] l IH]; simpl; intros Hnd; [constructor|].
  inversion Hnd as [|? ? Hnk Hnd']; subst.
  destruct (f (k, x)); simpl; [|apply IH; exact Hnd'].
  constructor; [|apply IH; exact Hnd'].
  intros Hin. apply Hnk. apply in_map_iff in Hin.
  destruct Hin as [[k' x'] [E Hin]]. simpl in E. subst k'.
  apply filter_In in Hin. destruct Hin as [Hin _].
  apply (in_map fst) in Hin. exact Hin.
Qed.

Lemma snapshot_nodup (ps : Params) :
  NoDup (map fst ps) ->
  snapshot ps = map (fun np => (fst np, value (snd np))) (trainable ps).
Proof.
  intros Hnd. unfold snapshot. apply dict_of_nodup.
  rewrite map_map. simpl. apply filter_keys_nodup. exact Hnd.
Qed.

Lemma zero_map_nodup (ps : Params) :
  NoDup (map fst ps) ->
  zero_map ps = map (fun np => (fst np, zeros (length (value (snd np))))) (trainable ps).
Proof.
  intros Hnd. unfold zero_map. apply dict_of_nodup.
  rewrite map_map. simpl. apply filter_keys_nodup. exact Hnd.
Qed.

Lemma zeros_length (k : nat) : length (zeros k) = k.
Proof. unfold zeros. apply repeat_length. Qed.

Lemma zero_map_shape (ps : Params) :
  NoDup (map fst ps) -> shape_of (zero_map ps) = param_shapes ps.
Proof.
  intros Hnd. rewrite zero_map_nodup by exact Hnd.
  unfold shape_of, param_shapes. rewrite map_map. apply map_ext.
  intros [k p]. simpl. rewrite zeros_length. reflexivity.
Qed.

Lemma snapshot_shape (ps : Params) :
  NoDup (map fst ps) -> shape_of (snapshot ps) = param_shapes ps.
Proof.
  intros Hnd. rewrite snapshot_nodup by exact Hnd.
  unfold shape_of, param_shapes. rewrite map_map. reflexivity.
Qed.

(** ** The regularised loss *)

Lemma zip_with_length {A B D : Type} (f : A -> B -> D) (a : list A) (b : list B) :
  length (zip_with f a b) = Nat.min (length a) (length b).
Proof.
  revert b. induction a as [|x a IH]; intros [|y b]; simpl; try reflexivity.
  rewrite IH. reflexivity.
Qed.

Lemma broadcast_same_shape (f : Qc -> Qc -> Qc) (a b : Tensor) :
  length a = length b -> broadcast f a b = Ok (zip_with f a b).
Proof.
  intros H. unfold broadcast. rewrite H, Nat.eqb_refl. reflexivity.
Qed.

Lemma unique_param (ps : Params) n p p' :
  NoDup (map fst ps) -> In (n, p) ps -> In (n, p') ps -> p = p'.
Proof.
  intros Hnd H1 H2.
  apply (assoc_in_nodup _ _ _ Hnd) in H1. apply (assoc_in_nodup _ _ _ Hnd) in H2.
  congruence.
Qed.

(** What a map of the shape of the trainable parameters holds for a
    parameter of the network. *)
Lemma shape_lookup (d : Dict) (ps : Params) n p :
  shape_of d = param_shapes ps -> NoDup (map fst ps) -> In (n, p) ps ->
  if requires_grad p
  then exists v, dict_get d n = Some v /\ length v = length (value p)
  else dict_get d n = None.
Proof.
  intros Hs Hnd Hin.
  assert (E : option_map (@length Qc) (dict_get d n)
              = option_map (fun q => length (value q)) (assoc (trainable ps) n)).
  { unfold dict_get. rewrite <- (assoc_map (@length Qc)).
    rewrite <- (assoc_map (fun q => length (value q))).
    fold (shape_of d). rewrite Hs. reflexivity. }
  destruct (requires_grad p) eqn:Hg.
  - assert (Ht : assoc (trainable ps) n = Some p).
    { apply assoc_in_nodup.
      - apply filter_keys_nodup. exact Hnd.
      - apply filter_In. split; [exact Hin|exact Hg]. }
    rewrite Ht in E. simpl in E.
    destruct (dict_get d n) as [v|]; [|discriminate].
    exists v. split; [reflexivity|]. simpl in E. congruence.
  - assert (Ht : assoc (trainable ps) n = None).
    { destruct (assoc (trainable ps) n) as [p'|] eqn:Ha; [|reflexivity].
      apply assoc_some_in in Ha. apply filter_In in Ha. destruct Ha as [Ha Hg'].
      simpl in Hg'. rewrite (unique_param ps n p p' Hnd Hin Ha) in Hg. congruence. }
    rewrite Ht in E. simpl in E.
    destruct (dict_get d n); [discriminate|reflexivity].
Qed.

Lemma penalty_step_parity (s : Appr) (acc : Qc) (np : string * Param) :
  parity s -> In np (backbone (model s)) ->
  penalty_step s acc np = Ok (acc + half * ewc_term s np)%Qc.
Proof.
  intros (Hnd & HF & HO) Hin. destruct np as [n p].
  pose proof (shape_lookup _ _ n p HF Hnd Hin) as LF.
  pose proof (shape_lookup _ _ n p HO Hnd Hin) as LO.
  unfold penalty_step, ewc_term, dict_mem, dict_item. simpl.
  destruct (requires_grad p).
  - destruct LF as (f & -> & Lf). destruct LO as (o & -> & Lo). simpl.
    unfold sub. rewrite broadcast_same_shape by congruence. simpl.
    unfold mul. rewrite broadcast_same_shape.
    + simpl. unfold weighted_drift, Qcdiv. rewrite inv_qz_2. f_equal. ring.
    + unfold pow2. rewrite length_map, zip_with_length, Lf, Lo.
      rewrite Nat.min_id. reflexivity.
  - rewrite LF. f_equal. rewrite qz_0. ring.
Qed.

Lemma penalty_loop_parity (s : Appr) (ps : Params) (acc : Qc) :
  parity s -> incl ps (backbone (model s)) ->
  for_each (penalty_step s) ps acc = Ok (acc + half * sum (map (ewc_term s) ps))%Qc.
Proof.
  intros Hp. revert acc. induction ps as [|np ps IH]; intros acc Hincl; simpl.
  - rewrite sum_nil. f_equal. ring.
  - rewrite penalty_step_parity; [|exact Hp|apply Hincl; left; reflexivity].
    simpl. rewrite IH.
    + rewrite sum_cons. f_equal. ring.
    + intros x Hx. apply Hincl. right. exact Hx.
Qed.

Lemma penalty_parity (s : Appr) (t : nat) :
  parity s -> (0 < t)%nat ->
  penalty s t = Ok (lamb s * (half * ewc_sum s))%Qc.
Proof.
  intros Hp Ht. unfold penalty.
  destruct (Nat.ltb_spec 0 t) as [_|Hle]; [|lia].
  rewrite penalty_loop_parity; [|exact Hp|apply incl_refl].
  simpl. unfold ewc_sum. rewrite qz_0. f_equal. ring.
Qed.

Lemma penalty_first_task (s : Appr) : penalty s 0 = Ok (qz 0).
Proof. reflexivity. Qed.

Lemma example_parity : parity Example.ewc_state.
Proof.
  unfold parity. split; [distinct_names|split; reflexivity].
Qed.

Lemma example_penalty : penalty Example.ewc_state 1 = Ok (qz 4000).
Proof. qc_value. Qed.

(** C1. For a task index t > 0 the loss of [criterion] is the
    classification term plus lambda * (1/2) * the sum over the backbone
    parameters of Importance * (current value - Snapshot)^2, for maps
    that hold one entry of the parameter's shape per trainable
    parameter; for t = 0 it is the classification term alone; in the
    configuration with lambda = 1000, two parameters of importance 4 and
    drift 1 the penalty is 4000. *)
Theorem criterion_ewc_penalty {Image : Type} (C : Collab Image) (s : Appr) (t : nat)
    (outputs : list Logits) (targets : list Z) (c : Qc) :
  classification_term C s t outputs targets = Ok c ->
  ((0 < t)%nat -> parity s ->
   criterion C s t outputs targets = Ok (c + lamb s * (half * ewc_sum s))%Qc)
  /\ (t = 0%nat -> criterion C s t outputs targets = Ok c)
  /\ (forall c', classification_term C Example.ewc_state 1 outputs targets = Ok c' ->
      criterion C Example.ewc_state 1 outputs targets = Ok (c' + qz 4000)%Qc).
Proof.
  intros Hc. repeat split.
  - intros Ht Hp. unfold criterion. rewrite penalty_parity by assumption.
    simpl. rewrite Hc. simpl. f_equal. ring.
  - intros ->. unfold criterion. rewrite penalty_first_task. simpl.
    rewrite Hc. simpl. f_equal. rewrite qz_0. ring.
  - intros c' Hc'. unfold criterion. rewrite example_penalty. simpl.
    rewrite Hc'. simpl. f_equal. ring.
Qed.

(** Labels that name a column of their rows, at least one of them, are
    accepted by the cross-entropy. *)
Lemma cross_entropy_in_range {Image : Type} (C : Collab Image) (lg : Logits)
    (y : list Z) :
  labels_in_range lg y -> y <> [] -> cross_entropy C lg y = Ok (ce C lg y).
Proof.
  intros H Hne. unfold cross_entropy.
  assert (Hlen : length lg = length y).
  { clear Hne. induction H as [|row l lg y _ _ IH]; simpl; [reflexivity|].
    rewrite IH. reflexivity. }
  rewrite Hlen, Nat.eqb_refl. simpl.
  assert (Hok : forallb (fun ry => label_ok (fst ry) (snd ry)) (combine lg y) = true).
  { clear Hne Hlen. induction H as [|row l lg y Hl _ IH]; simpl; [reflexivity|].
    rewrite IH, andb_true_r. unfold label_ok.
    destruct (Z.leb_spec 0 l) as [_|]; [|lia].
    destruct (Z.ltb_spec l (Z.of_nat (length row))) as [_|]; [|lia].
    apply orb_true_r. }
  rewrite Hok. simpl.
  destruct H as [|row l lg y Hl _]; [contradiction|]. cbn [forallb].
  destruct (Z.eqb_spec ignore_index l) as [E|_]; [unfold ignore_index in E; lia|].
  reflexivity.
Qed.

(** C5. With exemplars of past tasks the classification term of
    [criterion] is the cross-entropy of the concatenated head outputs
    against the raw targets; without exemplars it is the cross-entropy
    of [outputs[t]] against the targets minus the label offset of
    task t.  In every call the outcome of that cross-entropy, its
    exceptions included, is the outcome of the loss; the loss is the
    penalty plus the value of the cross-entropy when there is at least
    one target and every label handed to the cross-entropy names a
    class of the logits it is compared with. *)
Theorem criterion_classification_term {Image : Type} (C : Collab Image) (s : Appr)
    (t : nat) (outputs : list Logits) (targets : list Z) (loss : Qc) :
  penalty s t = Ok loss ->
  ((0 < exemplars_len s)%nat ->
   forall lg, cat_dim1 outputs = Ok lg ->
   criterion C s t outputs targets
   = (c <- cross_entropy C lg targets ;; Ok (loss + c)%Qc)
   /\ (targets <> [] -> labels_in_range lg targets ->
       criterion C s t outputs targets = Ok (loss + ce C lg targets)%Qc))
  /\ (exemplars_len s = 0%nat ->
      forall o off, nth_error outputs t = Some o ->
      nth_error (task_offset (model s)) t = Some off ->
      criterion C s t outputs targets
      = (c <- cross_entropy C o (map (fun y => (y - off)%Z) targets) ;;
         Ok (loss + c)%Qc)
      /\ (targets <> [] ->
          labels_in_range o (map (fun y => (y - off)%Z) targets) ->
          criterion C s t outputs targets
          = Ok (loss + ce C o (map (fun y => (y - off)%Z) targets))%Qc)).
Proof.
  intros Hl. split.
  - intros He lg Hcat.
    assert (E : criterion C s t outputs targets
                = (c <- cross_entropy C lg targets ;; Ok (loss + c)%Qc)).
    { unfold criterion, classification_term. rewrite Hl. simpl.
      destruct (Nat.ltb_spec 0 (exemplars_len s)) as [_|Hle]; [|lia].
      rewrite Hcat. reflexivity. }
    split; [exact E|]. intros Hne Hin.
    rewrite E, (cross_entropy_in_range C lg targets Hin Hne). reflexivity.
  - intros He o off Ho Hoff.
    assert (E : criterion C s t outputs targets
                = (c <- cross_entropy C o (map (fun y => (y - off)%Z) targets) ;;
                   Ok (loss + c)%Qc)).
    { unfold criterion, classification_term. rewrite Hl, He. simpl.
      unfold index. rewrite Ho, Hoff. reflexivity. }
    split; [exact E|]. intros Hne Hin.
    rewrite E, (cross_entropy_in_range C o _ Hin); [reflexivity|].
    destruct targets; [contradiction|discriminate].
Qed.

(** ** What the estimator leaves untouched *)

Section Frame.

Context {Image : Type} (C : Collab Image).

Lemma zero_grad_idem (m : Net) : zero_grad (zero_grad m) = zero_grad m.
Proof.
  unfold zero_grad, set_backbone. simpl. f_equal.
  rewrite map_map. reflexivity.
Qed.

Lemma zero_grad_train (m : Net) : zero_grad (train m) = train (zero_grad m).
Proof. reflexivity. Qed.

Lemma zero_grad_backward (m : Net) (images : list Image) (preds : list Z) :
  zero_grad (backward C m images preds) = zero_grad m.
Proof.
  unfold zero_grad, backward, set_backbone. simpl. f_equal.
  rewrite map_map. apply map_ext. intros [n p]. simpl.
  destruct (requires_grad p) eqn:Hg; [|simpl; rewrite Hg; reflexivity].
  destruct (grad_ce C _ _ _ _ _ _); simpl; rewrite ?Hg; reflexivity.
Qed.

Lemma fisher_batch_frame (st : SamplingType) (m : Net) (f : Dict)
    (b : list (Image * Z)) :
  zero_grad (snd (fisher_batch C st m f b)) = zero_grad m.
Proof.
  unfold fisher_batch.
  destruct (preds <- pseudo_labels C st _ _ ;; _) as [preds|e]; simpl.
  - rewrite zero_grad_backward. apply zero_grad_idem.
  - reflexivity.
Qed.

Lemma fisher_loop_frame (st : SamplingType) (bs : list (list (Image * Z)))
    (m : Net) (f : Dict) :
  zero_grad (snd (fisher_loop C st bs m f)) = zero_grad m.
Proof.
  revert m f. induction bs as [|b bs IH]; intros m f; simpl; [reflexivity|].
  pose proof (fisher_batch_frame st m f b) as Hb.
  destruct (fisher_batch C st m f b) as [[f1|e] m1]; simpl in *.
  - rewrite IH. exact Hb.
  - exact Hb.
Qed.

Lemma train_idem (m : Net) : train (train m) = train m.
Proof. reflexivity. Qed.

Lemma train_of_zero_grad (m m' : Net) :
  zero_grad m' = zero_grad m -> zero_grad (train m') = zero_grad (train m).
Proof. intros H. rewrite !zero_grad_train, H. reflexivity. Qed.

(** The estimator writes the gradient buffers and the training flag of
    the network, and no other field of the object. *)
Lemma compute_fisher_frame (l : Loader Image) (s : Appr) :
  let s' := snd (compute_fisher_matrix_diag C l s) in
  zero_grad (train (model s')) = zero_grad (train (model s))
  /\ older_params s' = older_params s /\ fisher s' = fisher s
  /\ alpha s' = alpha s /\ lamb s' = lamb s.
Proof.
  unfold compute_fisher_matrix_diag.
  destruct (n_samples_batches s l) as [n|e]; simpl; [|repeat split].
  destruct (islice l n) as [bs|e]; simpl; [|repeat split].
  pose proof (fisher_loop_frame (sampling_type s) bs (train (model s))
                (zero_map (backbone (model s)))) as Hf.
  destruct (fisher_loop C (sampling_type s) bs (train (model s))
              (zero_map (backbone (model s)))) as [r m2].
  simpl in *. repeat split. apply train_of_zero_grad in Hf. exact Hf.
Qed.

Lemma values_frame (m : Net) :
  values (backbone (zero_grad (train m))) = values (backbone m).
Proof.
  unfold values, zero_grad, train, set_backbone. simpl.
  rewrite map_map. reflexivity.
Qed.

Lemma names_frame (m : Net) :
  map fst (backbone (zero_grad (train m))) = map fst (backbone m).
Proof.
  unfold zero_grad, train, set_backbone. simpl. rewrite map_map. reflexivity.
Qed.

Lemma filter_map_comm {A B : Type} (g : A -> B) (f : B -> bool) (l : list A) :
  filter f (map g l) = map g (filter (fun x => f (g x)) l).
Proof.
  induction l as [|x l IH]; simpl; [reflexivity|].
  destruct (f (g x)); simpl; rewrite IH; reflexivity.
Qed.

Lemma snapshot_frame (m : Net) :
  snapshot (backbone (zero_grad (train m))) = snapshot (backbone m).
Proof.
  unfold snapshot, zero_grad, train, set_backbone. simpl.
  rewrite filter_map_comm, !map_map. reflexivity.
Qed.

Lemma zero_map_frame (m : Net) :
  zero_map (backbone (zero_grad (train m))) = zero_map (backbone m).
Proof.
  unfold zero_map, zero_grad, train, set_backbone. simpl.
  rewrite filter_map_comm, !map_map. reflexivity.
Qed.

Lemma param_shapes_frame (m : Net) :
  param_shapes (backbone (zero_grad (train m))) = param_shapes (backbone m).
Proof.
  unfold param_shapes, trainable, zero_grad, train, set_backbone. simpl.
  rewrite filter_map_comm, !map_map. reflexivity.
Qed.

End Frame.

Section Reset.

Context {Image : Type} (C : Collab Image).

Lemma forward_zero_grad (m : Net) (images : list Image) :
  forward C (zero_grad m) images = forward C m images.
Proof.
  unfold forward.
  change (heads (zero_grad m)) with (heads m).
  change (training (zero_grad m)) with (training m).
  change (task_cls (zero_grad m)) with (task_cls m).
  change (backbone (zero_grad m)) with (backbone (zero_grad (train m))).
  rewrite values_frame. reflexivity.
Qed.

Lemma forward_same_weights (m1 m2 : Net) (images : list Image) :
  zero_grad m1 = zero_grad m2 -> forward C m1 images = forward C m2 images.
Proof.
  intros H. rewrite <- (forward_zero_grad m1), <- (forward_zero_grad m2), H.
  reflexivity.
Qed.

(** What a batch adds to the estimate does not depend on the content of
    the gradient buffers before the batch. *)
Lemma fisher_batch_reset (st : SamplingType) (m1 m2 : Net) (f : Dict)
    (b : list (Image * Z)) :
  zero_grad m1 = zero_grad m2 ->
  fst (fisher_batch C st m1 f b) = fst (fisher_batch C st m2 f b)
  /\ zero_grad (snd (fisher_batch C st m1 f b))
     = zero_grad (snd (fisher_batch C st m2 f b)).
Proof.
  intros H. split; [|rewrite !fisher_batch_frame; exact H].
  unfold fisher_batch. rewrite (forward_same_weights m1 m2 _ H), H.
  destruct (preds <- pseudo_labels C st _ _ ;; _) as [preds|e]; reflexivity.
Qed.

Lemma fisher_loop_reset (st : SamplingType) (bs : list (list (Image * Z)))
    (m1 m2 : Net) (f : Dict) :
  zero_grad m1 = zero_grad m2 ->
  fst (fisher_loop C st bs m1 f) = fst (fisher_loop C st bs m2 f).
Proof.
  revert m1 m2 f. induction bs as [|b bs IH]; intros m1 m2 f H; simpl; [reflexivity|].
  destruct (fisher_batch_reset st m1 m2 f b H) as [E1 E2].
  destruct (fisher_batch C st m1 f b) as [[f1|e1] m1'];
    destruct (fisher_batch C st m2 f b) as [[f2|e2] m2']; simpl in *;
    try discriminate.
  - injection E1 as ->. apply IH. exact E2.
  - exact E1.
Qed.

Lemma compute_fisher_reset (l : Loader Image) (s : Appr) :
  fst (compute_fisher_matrix_diag C l (set_model s (zero_grad (model s))))
  = fst (compute_fisher_matrix_diag C l s).
Proof.
  unfold compute_fisher_matrix_diag.
  change (n_samples_batches (set_model s (zero_grad (model s))) l)
    with (n_samples_batches s l).
  change (model (set_model s (zero_grad (model s)))) with (zero_grad (model s)).
  change (sampling_type (set_model s (zero_grad (model s))))
    with (sampling_type s).
  change (backbone (zero_grad (model s)))
    with (backbone (zero_grad (train (model s)))).
  rewrite zero_map_frame.
  destruct (n_samples_batches s l) as [n|e]; [|reflexivity].
  destruct (islice l n) as [bs|e]; [|reflexivity].
  pose proof (fisher_loop_reset (sampling_type s) bs
                (train (zero_grad (model s))) (train (model s))
                (zero_map (backbone (model s)))) as E.
  destruct (fisher_loop C (sampling_type s) bs (train (zero_grad (model s))) _)
    as [r1 m1].
  destruct (fisher_loop C (sampling_type s) bs (train (model s)) _) as [r2 m2].
  simpl in *. rewrite E; [reflexivity|].
  rewrite <- !zero_grad_train, zero_grad_idem. reflexivity.
Qed.

End Reset.

Lemma minus_self (v : Tensor) : zip_with Qcminus v v = zeros (length v).
Proof.
  unfold zeros. induction v as [|x v IH]; simpl; [reflexivity|].
  rewrite IH. f_equal. rewrite qz_0. ring.
Qed.

Lemma sub_self (v : Tensor) : sub v v = Ok (zeros (length v)).
Proof.
  unfold sub. rewrite broadcast_same_shape by reflexivity.
  rewrite minus_self. reflexivity.
Qed.

Lemma snapshot_lookup (ps : Params) n p :
  NoDup (map fst ps) -> In (n, p) ps -> requires_grad p = true ->
  dict_get (snapshot ps) n = Some (value p).
Proof.
  intros Hnd Hin Hg. rewrite snapshot_nodup by exact Hnd.
  unfold dict_get. rewrite (assoc_map value).
  rewrite (assoc_in_nodup (trainable ps) n p); [reflexivity| |].
  - apply filter_keys_nodup. exact Hnd.
  - apply filter_In. split; assumption.
Qed.

(** ** Loops *)

Lemma for_each_inv {A S : Type} (P : S -> Prop) (f : S -> A -> Res S)
    (l : list A) (acc r : S) :
  (forall a x a', In x l -> P a -> f a x = Ok a' -> P a') ->
  P acc -> for_each f l acc = Ok r -> P r.
Proof.
  revert acc. induction l as [|x l IH]; intros acc Hstep Hacc Hrun; simpl in Hrun.
  - injection Hrun as <-. exact Hacc.
  - destruct (f acc x) as [a'|e] eqn:E; simpl in Hrun; [|discriminate].
    apply (IH a').
    + intros a y a'' Hy. apply Hstep. right. exact Hy.
    + apply (Hstep acc x a'); [left; reflexivity|exact Hacc|exact E].
    + exact Hrun.
Qed.

Lemma loop_inv {A S : Type} (P : S -> Prop) (f : S -> A -> Res S)
    (l : list A) (acc : S) :
  (forall a x a', In x l -> P a -> f a x = Ok a' -> P a') ->
  P acc -> P (snd (loop f l acc)).
Proof.
  revert acc. induction l as [|x l IH]; intros acc Hstep Hacc; simpl.
  - exact Hacc.
  - destruct (f acc x) as [a'|e] eqn:E; simpl; [|exact Hacc].
    apply IH.
    + intros a y a'' Hy. apply Hstep. right. exact Hy.
    + apply (Hstep acc x a'); [left; reflexivity|exact Hacc|exact E].
Qed.

(** ** Non-negative maps *)

Lemma Forall_zip_with {A B D : Type} (P : A -> Prop) (Q : B -> Prop) (R : D -> Prop)
    (f : A -> B -> D) (a : list A) (b : list B) :
  (forall x y, P x -> Q y -> R (f x y)) ->
  Forall P a -> Forall Q b -> Forall R (zip_with f a b).
Proof.
  intros Hf Ha. revert b. induction Ha as [|x a Hx Ha IH]; intros b Hb; simpl.
  - constructor.
  - destruct Hb as [|y b Hy Hb]; constructor; [apply Hf; assumption|apply IH; exact Hb].
Qed.

Lemma Forall_map_impl {A B : Type} (P : A -> Prop) (Q : B -> Prop) (f : A -> B)
    (l : list A) :
  (forall x, P x -> Q (f x)) -> Forall P l -> Forall Q (map f l).
Proof.
  intros Hf Hl. induction Hl; simpl; constructor; auto.
Qed.

Lemma nonneg_zeros (k : nat) : nonneg_tensor (zeros k).
Proof.
  unfold nonneg_tensor, zeros. induction k; simpl; constructor.
  - apply Qcle_refl.
  - assumption.
Qed.

Lemma dict_all_get (Q : Tensor -> Prop) (d : Dict) n v :
  dict_all Q d -> dict_get d n = Some v -> Q v.
Proof.
  intros Hd Hg. apply assoc_some_in in Hg.
  unfold dict_all in Hd. rewrite Forall_forall in Hd.
  apply (Hd (n, v)). exact Hg.
Qed.

Lemma dict_all_set (Q : Tensor -> Prop) (d : Dict) n v :
  dict_all Q d -> Q v -> dict_all Q (dict_set d n v).
Proof.
  unfold dict_all. intros Hd Hv.
  induction Hd as [|[k x] d Hx Hd IH]; simpl.
  - constructor; [exact Hv|constructor].
  - destruct (String.eqb k n); constructor; simpl; assumption.
Qed.

Lemma dict_all_dict_of (Q : Tensor -> Prop) (l : list (string * Tensor)) :
  Forall (fun kv => Q (snd kv)) l -> dict_all Q (dict_of l).
Proof.
  unfold dict_of. intros Hl.
  assert (G : forall acc, dict_all Q acc ->
              dict_all Q (fold_left (fun d kv => dict_set d (fst kv) (snd kv)) l acc)).
  { induction Hl as [|kv l Hkv Hl IH]; intros acc Hacc; simpl; [exact Hacc|].
    apply IH. apply dict_all_set; assumption. }
  apply G. constructor.
Qed.

Lemma dict_all_zero_map (Q : Tensor -> Prop) (ps : Params) :
  (forall k, Q (zeros k)) -> dict_all Q (zero_map ps).
Proof.
  intros HQ. unfold zero_map. apply dict_all_dict_of.
  apply Forall_map_impl with (P := fun _ => True).
  - intros x _. simpl. apply HQ.
  - apply Forall_forall. intros; exact I.
Qed.

Lemma nonneg_get (d : Dict) n v : nonneg d -> dict_get d n = Some v -> nonneg_tensor v.
Proof. apply dict_all_get. Qed.

Lemma nonneg_set (d : Dict) n v : nonneg d -> nonneg_tensor v -> nonneg (dict_set d n v).
Proof. apply dict_all_set. Qed.

Lemma nonneg_zero_map (ps : Params) : nonneg (zero_map ps).
Proof. apply dict_all_zero_map. apply nonneg_zeros. Qed.

Lemma all_zero_zero_map (ps : Params) : dict_all all_zero (zero_map ps).
Proof.
  apply dict_all_zero_map. intros k. unfold all_zero.
  rewrite zeros_length. reflexivity.
Qed.



Lemma nonneg_square_times (g : Tensor) (k : nat) :
  nonneg_tensor (times (pow2 g) (qz (Z.of_nat k))).
Proof.
  unfold nonneg_tensor, times, pow2. rewrite map_map.
  apply Forall_map_impl with (P := fun _ => True).
  - intros x _. apply Qc_mult_nonneg; [apply Qc_sq_nonneg|].
    apply qz_nonneg. lia.
  - apply Forall_forall. intros; exact I.
Qed.

Lemma iadd_length (a b c : Tensor) : iadd a b = Ok c -> length c = length a.
Proof.
  unfold iadd. destruct (Nat.eqb_spec (length a) (length b)) as [E|_].
  - intros H. injection H as <-. rewrite zip_with_length, <- E. apply Nat.min_id.
  - destruct b as [|y [|y' b]]; try discriminate.
    intros H. injection H as <-. apply length_map.
Qed.

Lemma nonneg_iadd (a b c : Tensor) :
  iadd a b = Ok c -> nonneg_tensor a -> nonneg_tensor b -> nonneg_tensor c.
Proof.
  unfold iadd, nonneg_tensor. intros H Ha Hb.
  destruct (Nat.eqb (length a) (length b)).
  - injection H as <-.
    apply (Forall_zip_with _ _ _ _ a b (fun x y => Qc_plus_nonneg x y) Ha Hb).
  - destruct b as [|y [|y' b]]; try discriminate.
    injection H as <-. inversion Hb as [|? ? Hy _]; subst.
    apply Forall_map_impl with (P := fun z => (qz 0 <= z)%Qc); [|exact Ha].
    intros z Hz. apply Qc_plus_nonneg; assumption.
Qed.

(** ** The estimate *)

Lemma accumulate_inv (k : nat) (sh : list (string * nat)) (f f' : Dict)
    (np : string * Param) :
  est_inv sh f -> accumulate k f np = Ok f' -> est_inv sh f'.
Proof.
  intros [Hs Hn]. unfold accumulate, dict_item.
  destruct (grad (snd np)) as [g|]; [|intros H; injection H as <-; split; assumption].
  destruct (dict_get f (fst np)) as [old|] eqn:Hg; simpl; [|discriminate].
  destruct (iadd old _) as [v|e] eqn:Hv; simpl; [|discriminate].
  intros H. injection H as <-. split.
  - rewrite (dict_set_shape f _ v old Hg); [exact Hs|].
    apply (iadd_length _ _ _ Hv).
  - apply nonneg_set; [exact Hn|].
    apply (nonneg_iadd _ _ _ Hv).
    + apply (nonneg_get f (fst np)); assumption.
    + apply nonneg_square_times.
Qed.

Section Estimate.

Context {Image : Type} (C : Collab Image).

Lemma fisher_batch_inv (st : SamplingType) (sh : list (string * nat)) (m : Net)
    (f f' : Dict) (b : list (Image * Z)) :
  est_inv sh f -> fst (fisher_batch C st m f b) = Ok f' -> est_inv sh f'.
Proof.
  intros Hf. unfold fisher_batch.
  destruct (preds <- pseudo_labels C st _ _ ;; _) as [preds|e]; simpl; [|discriminate].
  apply for_each_inv; [|exact Hf].
  intros a x a' _ Ha. apply accumulate_inv. exact Ha.
Qed.

Lemma fisher_loop_inv (st : SamplingType) (sh : list (string * nat))
    (bs : list (list (Image * Z))) (m : Net) (f f' : Dict) :
  est_inv sh f -> fst (fisher_loop C st bs m f) = Ok f' -> est_inv sh f'.
Proof.
  revert m f. induction bs as [|b bs IH]; intros m f Hf; simpl.
  - intros H. injection H as <-. exact Hf.
  - pose proof (fun f1 => fisher_batch_inv st sh m f f1 b Hf) as Hb.
    destruct (fisher_batch C st m f b) as [[f1|e] m1]; simpl in *; [|discriminate].
    apply IH. apply (Hb f1). reflexivity.
Qed.

End Estimate.

Lemma div_int_ok (a v : Tensor) (n : Z) :
  div_int a n = Ok v -> n <> 0 /\ v = map (fun x => x / qz n)%Qc a.
Proof.
  unfold div_int. destruct (Z.eqb_spec n 0) as [->|Hn]; [discriminate|].
  intros H. injection H as <-. split; [exact Hn|reflexivity].
Qed.

Lemma mean_map_ok (acc d : Dict) (n : Z) :
  mean_map acc n = Ok d ->
  shape_of d = shape_of acc
  /\ (0 < n -> nonneg acc -> nonneg d)
  /\ (acc <> [] -> n <> 0).
Proof.
  unfold mean_map. revert d. induction acc as [|[k x] acc IH]; intros d; simpl.
  - intros H. injection H as <-. repeat split; [constructor|congruence].
  - destruct (div_int x n) as [v|e] eqn:Hv; simpl; [|discriminate].
    destruct (mapM _ acc) as [d'|e] eqn:Hd; simpl; [|discriminate].
    intros H. injection H as <-.
    destruct (div_int_ok _ _ _ Hv) as [Hn ->].
    destruct (IH d' eq_refl) as (Hs & Hnn & _).
    repeat split.
    + simpl. rewrite length_map, Hs. reflexivity.
    + intros Hpos Hacc. inversion Hacc as [|? ? Hx Hacc']; subst.
      constructor; [|apply Hnn; assumption]. simpl in *.
      apply Forall_map_impl with (P := fun y => (qz 0 <= y)%Qc); [|exact Hx].
      intros y Hy. apply Qc_div_nonneg; [exact Hy|apply qz_pos; exact Hpos].
    + intros _. exact Hn.
Qed.

Section Budget.

Context {Image : Type}.

Lemma n_samples_sign (s : Appr) (l : Loader Image) (n : Z) :
  n_samples_batches s l = Ok n -> 0 <= n -> n * batch_size l <> 0 ->
  0 < n * batch_size l /\ 0 < batch_size l.
Proof.
  unfold n_samples_batches.
  destruct (Z.eqb_spec (batch_size l) 0) as [E|Hb]; [discriminate|].
  assert (Hdiv : forall a, 0 <= a ->
            (0 < batch_size l -> 0 <= a / batch_size l)
            /\ (batch_size l < 0 -> a / batch_size l <= 0
                                    /\ (0 < a -> a / batch_size l < 0))).
  { intros a Ha. split.
    - intros Hpos. apply Z.div_pos; lia.
    - intros Hneg.
      pose proof (Z.div_mod a (batch_size l) Hb) as Hdm.
      pose proof (Z.mod_neg_bound a (batch_size l) Hneg) as Hm.
      split; [|intros Hpos]; nia. }
  destruct (Z.ltb_spec 0 (num_samples s)) as [Hpos|Hle]; intros H;
    injection H as <-; intros Hn0 Hne.
  - destruct (Hdiv (num_samples s) ltac:(lia)) as [Hp Hq].
    destruct (Z_lt_ge_dec 0 (batch_size l)) as [Hbp|Hbn].
    + specialize (Hp Hbp). split; [nia|exact Hbp].
    + destruct (Hq ltac:(lia)) as [_ Hlt]. specialize (Hlt Hpos).
      exfalso. apply Hne. nia.
  - destruct (Hdiv (Z.of_nat (length (dataset l))) ltac:(lia)) as [Hp Hq].
    destruct (Z_lt_ge_dec 0 (batch_size l)) as [Hbp|Hbn].
    + specialize (Hp Hbp). split; [nia|exact Hbp].
    + destruct (Hq ltac:(lia)) as [Hle0 _]. exfalso. apply Hne. nia.
Qed.

Lemma islice_ok (l : Loader Image) (n : Z) (bs : list (list (Image * Z))) :
  islice l n = Ok bs -> 0 <= n /\ bs = firstn (Z.to_nat n) (loader_batches l).
Proof.
  unfold islice. destruct (Z.ltb_spec n 0) as [Hn|Hn]; [discriminate|].
  intros H. injection H as <-. split; [exact Hn|reflexivity].
Qed.

Context (C : Collab Image).

(** A returned estimate has the keys and shapes of the zero map it
    started from, and entries that are not negative. *)
Lemma compute_fisher_ok (l : Loader Image) (s : Appr) (cur : Dict) :
  fst (compute_fisher_matrix_diag C l s) = Ok cur ->
  shape_of cur = shape_of (zero_map (backbone (model s))) /\ nonneg cur.
Proof.
  unfold compute_fisher_matrix_diag.
  destruct (n_samples_batches s l) as [n|e] eqn:Hn; simpl; [|discriminate].
  destruct (islice l n) as [bs|e] eqn:Hbs; simpl; [|discriminate].
  pose proof (fisher_loop_inv C (sampling_type s)
                (shape_of (zero_map (backbone (model s)))) bs (train (model s))
                (zero_map (backbone (model s)))) as Hl.
  destruct (fisher_loop C (sampling_type s) bs (train (model s)) _) as [[acc|e] m2];
    simpl in *; [|discriminate].
  intros Hm. destruct (Hl acc) as [Hs Hnn];
    [split; [reflexivity|apply nonneg_zero_map]|reflexivity|].
  destruct (mean_map_ok _ _ _ Hm) as (Hs' & Hnn' & Hne).
  split; [congruence|].
  destruct acc as [|kv acc].
  - simpl in Hm. injection Hm as <-. constructor.
  - apply Hnn'; [|exact Hnn].
    apply islice_ok in Hbs. destruct Hbs as [Hn0 _].
    apply (n_samples_sign s l n Hn Hn0). apply Hne. discriminate.
Qed.

Lemma compute_fisher_shape (l : Loader Image) (s : Appr) (cur : Dict) :
  NoDup (map fst (backbone (model s))) ->
  fst (compute_fisher_matrix_diag C l s) = Ok cur ->
  shape_of cur = param_shapes (backbone (model s)).
Proof.
  intros Hnd H. destruct (compute_fisher_ok l s cur H) as [Hs _].
  rewrite Hs. apply zero_map_shape. exact Hnd.
Qed.

End Budget.

(** ** The fusion loop *)

Lemma zip_with_map {A B A' B' D : Type} (f : A' -> B' -> D) (g : A -> A') (h : B -> B')
    (a : list A) (b : list B) :
  zip_with f (map g a) (map h b) = zip_with (fun x y => f (g x) (h y)) a b.
Proof.
  revert b. induction a as [|x a IH]; intros [|y b]; simpl; try reflexivity.
  rewrite IH. reflexivity.
Qed.

Lemma add_scaled (a : Qc) (old c : Tensor) :
  length old = length c ->
  add (scale a old) (scale (qz 1 - a)%Qc c) = Ok (fuse a old c).
Proof.
  intros Hl. unfold add, scale. rewrite broadcast_same_shape.
  - rewrite zip_with_map. reflexivity.
  - rewrite !length_map. exact Hl.
Qed.

Lemma fuse_length (a : Qc) (old c : Tensor) :
  length old = length c -> length (fuse a old c) = length old.
Proof.
  intros Hl. unfold fuse. rewrite zip_with_length, <- Hl. apply Nat.min_id.
Qed.

Lemma fuse_one (old c : Tensor) : length old = length c -> fuse (qz 1) old c = old.
Proof.
  unfold fuse. revert c. induction old as [|x old IH]; intros [|y c] Hl;
    simpl in *; try discriminate; [reflexivity|].
  rewrite IH by (injection Hl; trivial). f_equal. rewrite qz_1. ring.
Qed.

Lemma fuse_zero (old c : Tensor) : length old = length c -> fuse (qz 0) old c = c.
Proof.
  unfold fuse. revert c. induction old as [|x old IH]; intros [|y c] Hl;
    simpl in *; try discriminate; [reflexivity|].
  rewrite IH by (injection Hl; trivial). f_equal. rewrite qz_1, qz_0. ring.
Qed.

Lemma fuse_from_zero (a : Qc) (old c : Tensor) :
  all_zero old -> length old = length c -> fuse a old c = scale (qz 1 - a)%Qc c.
Proof.
  unfold all_zero, fuse, scale, zeros. intros Hz Hl. rewrite Hz, Hl.
  clear Hz Hl. induction c as [|y c IH]; simpl; [reflexivity|].
  rewrite IH. f_equal. rewrite qz_0. ring.
Qed.

Lemma shape_get (d : Dict) n :
  assoc (shape_of d) n = option_map (@length Qc) (dict_get d n).
Proof. unfold shape_of, dict_get. apply (assoc_map (@length Qc)). Qed.

Lemma shape_keys (d : Dict) : map fst (shape_of d) = dict_keys d.
Proof. unfold shape_of, dict_keys. rewrite map_map. reflexivity. Qed.

(** Two maps of one shape hold tensors of one length under every key. *)
Lemma same_shape_get (d1 d2 : Dict) n v1 :
  shape_of d1 = shape_of d2 -> dict_get d1 n = Some v1 ->
  exists v2, dict_get d2 n = Some v2 /\ length v1 = length v2.
Proof.
  intros Hs Hg. pose proof (shape_get d1 n) as E1. pose proof (shape_get d2 n) as E2.
  rewrite Hs, E2, Hg in E1. simpl in E1.
  destruct (dict_get d2 n) as [v2|]; [|discriminate].
  exists v2. split; [reflexivity|]. simpl in E1. congruence.
Qed.

Lemma key_get (d : Dict) n : In n (dict_keys d) -> exists v, dict_get d n = Some v.
Proof.
  unfold dict_keys, dict_get. induction d as [|[k x] d IH]; simpl; [contradiction|].
  intros Hin. destruct (String.eqb_spec k n) as [->|Hkn].
  - exists x. reflexivity.
  - apply IH. destruct Hin; [contradiction|assumption].
Qed.

(** The loop over distinct keys that both maps hold with equal shapes
    completes and fuses the tensor under every key it visits. *)
Lemma fuse_loop (s : Appr) (t : nat) (cur : Dict) (a : Qc) :
  fusion_weight s t = Ok a ->
  forall ks f, NoDup ks ->
  (forall n, In n ks -> exists old c,
      dict_get f n = Some old /\ dict_get cur n = Some c /\ length old = length c) ->
  fst (loop (fuse_step s t cur) ks f) = Ok tt
  /\ shape_of (snd (loop (fuse_step s t cur) ks f)) = shape_of f
  /\ (forall n old c, In n ks -> dict_get f n = Some old -> dict_get cur n = Some c ->
      dict_get (snd (loop (fuse_step s t cur) ks f)) n = Some (fuse a old c))
  /\ (forall n, ~ In n ks ->
      dict_get (snd (loop (fuse_step s t cur) ks f)) n = dict_get f n).
Proof.
  intros Ha. induction ks as [|k ks IH]; intros f Hnd Hks; simpl.
  - split; [reflexivity|]. split; [reflexivity|]. split; [|reflexivity].
    intros n old c [].
  - inversion Hnd as [|? ? Hk Hnd']; subst.
    destruct (Hks k (or_introl eq_refl)) as (old & c & Hold & Hc & Hl).
    assert (Hstep : fuse_step s t cur f k = Ok (dict_set f k (fuse a old c))).
    { unfold fuse_step, dict_item. rewrite Ha, Hold, Hc. simpl.
      rewrite add_scaled by exact Hl. reflexivity. }
    rewrite Hstep.
    destruct (IH (dict_set f k (fuse a old c)) Hnd') as (Hr & Hs & Hin & Hout).
    { intros n Hn. destruct (Hks n (or_intror Hn)) as (o' & c' & Ho' & Hc' & Hl').
      exists o', c'. repeat split; try assumption.
      rewrite dict_get_set_other; [exact Ho'|]. intros ->. contradiction. }
    split; [exact Hr|]. split.
    { rewrite Hs. apply (dict_set_shape f k _ old Hold).
      apply fuse_length. exact Hl. }
    split.
    + intros n o' c' [->|Hn] Ho' Hc'.
      * rewrite Hout by exact Hk. rewrite dict_get_set_same. congruence.
      * apply Hin; [exact Hn| |exact Hc'].
        rewrite dict_get_set_other; [exact Ho'|]. intros ->. contradiction.
    + intros n Hn. rewrite Hout by (intros Hn'; apply Hn; right; exact Hn').
      apply dict_get_set_other. intros ->. apply Hn. left. reflexivity.
Qed.





(** ** The post-task update *)

Section PostTrain.

Context {Image : Type} (C : Collab Image).

Lemma compute_fisher_older (l : Loader Image) (s : Appr) (d : Dict) :
  fst (compute_fisher_matrix_diag C l (set_older_params s d))
  = fst (compute_fisher_matrix_diag C l s).
Proof.
  unfold compute_fisher_matrix_diag.
  change (n_samples_batches (set_older_params s d) l) with (n_samples_batches s l).
  change (model (set_older_params s d)) with (model s).
  change (sampling_type (set_older_params s d)) with (sampling_type s).
  destruct (n_samples_batches s l) as [n|e]; [|reflexivity].
  destruct (islice l n) as [bs|e]; [|reflexivity].
  destruct (fisher_loop C _ _ _ _) as [r m2]. reflexivity.
Qed.

Lemma task_cls_frame (m m' : Net) :
  zero_grad (train m') = zero_grad (train m) -> task_cls m' = task_cls m.
Proof. intros H. apply (f_equal task_cls) in H. exact H. Qed.

Lemma fusion_weight_frame (s s' : Appr) (t : nat) :
  alpha s' = alpha s -> task_cls (model s') = task_cls (model s) ->
  fusion_weight s' t = fusion_weight s t.
Proof.
  intros Ha Hc. unfold fusion_weight, class_alpha. rewrite Ha, Hc. reflexivity.
Qed.

(** The Snapshot after the processing is the copy of the parameters the
    processing found, and the network differs from the one it found in
    gradient buffers and training flag only. *)
Lemma post_train_snapshot (t : nat) (l : Loader Image) (s : Appr) :
  zero_grad (train (model (snd (post_train_process C t l s))))
  = zero_grad (train (model s))
  /\ older_params (snd (post_train_process C t l s)) = snapshot (backbone (model s)).
Proof.
  unfold post_train_process.
  set (s1 := set_older_params s (snapshot (backbone (model s)))).
  destruct (compute_fisher_frame C l s1) as (Hm & Ho & _).
  destruct (compute_fisher_matrix_diag C l s1) as [[cur|e] s2]; simpl in *.
  - destruct (loop _ _ _) as [r f]. simpl. split; assumption.
  - split; assumption.
Qed.

Lemma fisher_keys_nodup (s : Appr) :
  NoDup (map fst (backbone (model s))) ->
  shape_of (fisher s) = param_shapes (backbone (model s)) ->
  NoDup (dict_keys (fisher s)).
Proof.
  intros Hnd Hs. rewrite <- shape_keys, Hs. unfold param_shapes.
  rewrite map_map. simpl. apply filter_keys_nodup. exact Hnd.
Qed.

(** With maps of the shape of the network, the update completes and
    every key of the Importance Map holds the fusion of its old tensor
    with the tensor of the estimate. *)
Lemma post_train_fused (t : nat) (l : Loader Image) (s : Appr) (cur : Dict) (a : Qc) :
  NoDup (map fst (backbone (model s))) ->
  shape_of (fisher s) = param_shapes (backbone (model s)) ->
  fst (compute_fisher_matrix_diag C l s) = Ok cur ->
  fusion_weight s t = Ok a ->
  fst (post_train_process C t l s) = Ok tt
  /\ shape_of (fisher (snd (post_train_process C t l s))) = shape_of (fisher s)
  /\ shape_of cur = shape_of (fisher s)
  /\ (forall n old, dict_get (fisher s) n = Some old ->
      exists c, dict_get cur n = Some c /\ length old = length c
                /\ dict_get (fisher (snd (post_train_process C t l s))) n
                   = Some (fuse a old c)).
Proof.
  intros Hnd Hs Hcur Ha.
  assert (Hshape : shape_of cur = shape_of (fisher s)).
  { rewrite Hs. apply (compute_fisher_shape C l s cur Hnd Hcur). }
  unfold post_train_process.
  set (s1 := set_older_params s (snapshot (backbone (model s)))).
  pose proof (compute_fisher_older l s (snapshot (backbone (model s)))) as Hfst.
  fold s1 in Hfst. rewrite Hcur in Hfst.
  destruct (compute_fisher_frame C l s1) as (Hm & _ & Hf & Hal & _).
  destruct (compute_fisher_matrix_diag C l s1) as [r s2]. simpl in Hfst, Hm, Hf, Hal.
  subst r. change (fisher s1) with (fisher s) in Hf.
  change (alpha s1) with (alpha s) in Hal. change (model s1) with (model s) in Hm.
  assert (Ha2 : fusion_weight s2 t = Ok a).
  { rewrite <- Ha. apply fusion_weight_frame; [exact Hal|].
    apply task_cls_frame. exact Hm. }
  rewrite Hf.
  destruct (fuse_loop s2 t cur a Ha2 (dict_keys (fisher s)) (fisher s))
    as (Hr & Hsh & Hin & _).
  { apply fisher_keys_nodup; assumption. }
  { intros n Hn. destruct (key_get _ _ Hn) as [old Hold].
    destruct (same_shape_get (fisher s) cur n old (eq_sym Hshape) Hold) as (c & Hc & Hl).
    exists old, c. repeat split; assumption. }
  destruct (loop (fuse_step s2 t cur) (dict_keys (fisher s)) (fisher s)) as [r f].
  simpl in *. split; [exact Hr|]. split; [exact Hsh|]. split; [exact Hshape|].
  intros n old Hold.
  destruct (same_shape_get (fisher s) cur n old (eq_sym Hshape) Hold) as (c & Hc & Hl).
  exists c. split; [exact Hc|]. split; [exact Hl|].
  apply Hin; [|exact Hold|exact Hc].
  apply (assoc_some_key _ _ _ Hold).
Qed.


End PostTrain.

(** C6. The post-task processing leaves the parameter values as they
    are: the estimator writes gradient buffers (and the training flag)
    only, and what a batch adds to the estimate does not depend on the
    buffers' content before the batch, which is reset.  The Snapshot is
    the copy of the current trainable backbone parameters, so the drift
    [current_value - Snapshot[param]] of every one of them is zero once
    the processing is over, whatever its outcome. *)
Theorem post_train_zero_drift {Image : Type} (C : Collab Image) (t : nat)
    (l : Loader Image) (s : Appr) :
  let s' := snd (post_train_process C t l s) in
  zero_grad (train (model s')) = zero_grad (train (model s))
  /\ values (backbone (model s')) = values (backbone (model s))
  /\ (forall st m1 m2 f b, zero_grad m1 = zero_grad m2 ->
      fst (fisher_batch C st m1 f b) = fst (fisher_batch C st m2 f b))
  /\ fst (compute_fisher_matrix_diag C l (set_model s (zero_grad (model s))))
     = fst (compute_fisher_matrix_diag C l s)
  /\ older_params s' = snapshot (backbone (model s'))
  /\ (NoDup (map fst (backbone (model s'))) ->
      forall n p, In (n, p) (backbone (model s')) -> requires_grad p = true ->
      exists o, dict_get (older_params s') n = Some o
                /\ sub (value p) o = Ok (zeros (length (value p)))).
Proof.
  destruct (post_train_snapshot C t l s) as [Hm Ho]. cbv zeta.
  assert (Hsnap : older_params (snd (post_train_process C t l s))
                  = snapshot (backbone (model (snd (post_train_process C t l s))))).
  { rewrite Ho. rewrite <- (snapshot_frame (model s)), <- Hm, snapshot_frame.
    reflexivity. }
  split; [exact Hm|]. split.
  { rewrite <- (values_frame (model s)), <- Hm, values_frame. reflexivity. }
  split.
  { intros st m1 m2 f b E. apply (fisher_batch_reset C st m1 m2 f b E). }
  split; [apply compute_fisher_reset|]. split; [exact Hsnap|].
  intros Hnd n p Hin Hg. exists (value p). split.
  - rewrite Hsnap. apply snapshot_lookup; assumption.
  - apply sub_self.
Qed.

Lemma fixed_weight (s : Appr) (t : nat) :
  alpha s <> qz (-1) -> fusion_weight s t = Ok (alpha s).
Proof.
  intros H. unfold fusion_weight.
  destruct (Qc_eq_dec (alpha s) (qz (-1))); [contradiction|reflexivity].
Qed.

Lemma same_shape_keys (d1 d2 : Dict) :
  shape_of d1 = shape_of d2 -> dict_keys d1 = dict_keys d2.
Proof. intros H. rewrite <- !shape_keys, H. reflexivity. Qed.

(** C2. In fixed-alpha mode the update completes and leaves, under
    every parameter name, alpha * old value + (1 - alpha) * value of the
    new estimate; with alpha = 1 the Importance Map is unchanged, with
    alpha = 0 it is the new estimate. *)
Theorem fixed_alpha_fusion {Image : Type} (C : Collab Image) (t : nat)
    (l : Loader Image) (s : Appr) (cur : Dict) :
  alpha s <> qz (-1) ->
  NoDup (map fst (backbone (model s))) ->
  shape_of (fisher s) = param_shapes (backbone (model s)) ->
  fst (compute_fisher_matrix_diag C l s) = Ok cur ->
  fst (post_train_process C t l s) = Ok tt
  /\ (forall n old, dict_get (fisher s) n = Some old ->
      exists c, dict_get cur n = Some c /\ length old = length c
                /\ dict_get (fisher (snd (post_train_process C t l s))) n
                   = Some (fuse (alpha s) old c))
  /\ (alpha s = qz 1 -> fisher (snd (post_train_process C t l s)) = fisher s)
  /\ (alpha s = qz 0 -> fisher (snd (post_train_process C t l s)) = cur).
Proof.
  intros Hmode Hnd Hs Hcur.
  destruct (post_train_fused C t l s cur (alpha s) Hnd Hs Hcur (fixed_weight s t Hmode))
    as (Hr & Hsh & Hshc & Hget).
  pose proof (fisher_keys_nodup s Hnd Hs) as Hkeys.
  split; [exact Hr|]. split; [exact Hget|]. split.
  - intros H1. apply dict_ext.
    + apply same_shape_keys. exact Hsh.
    + rewrite (same_shape_keys _ _ Hsh). exact Hkeys.
    + intros n Hn. rewrite (same_shape_keys _ _ Hsh) in Hn.
      destruct (key_get _ _ Hn) as [old Hold].
      destruct (Hget n old Hold) as (c & _ & Hl & Hnew).
      rewrite Hnew, Hold, H1, fuse_one by exact Hl. reflexivity.
  - intros H0. apply dict_ext.
    + apply same_shape_keys. congruence.
    + rewrite (same_shape_keys _ _ Hsh). exact Hkeys.
    + intros n Hn. rewrite (same_shape_keys _ _ Hsh) in Hn.
      destruct (key_get _ _ Hn) as [old Hold].
      destruct (Hget n old Hold) as (c & Hc & Hl & Hnew).
      rewrite Hnew, Hc, H0, fuse_zero by exact Hl. reflexivity.
Qed.

Lemma class_weight (s : Appr) (t : nat) :
  alpha s = qz (-1) -> length (task_cls (model s)) = S t ->
  (0 < list_sum (task_cls (model s)))%nat ->
  fusion_weight s t
  = Ok (qz (Z.of_nat (list_sum (firstn t (task_cls (model s)))))
        / qz (Z.of_nat (list_sum (firstn (S t) (task_cls (model s))))))%Qc.
Proof.
  intros Hmode Hlen Hpos. unfold fusion_weight.
  destruct (Qc_eq_dec (alpha s) (qz (-1))); [|contradiction].
  unfold class_alpha. rewrite <- Hlen, firstn_all.
  destruct (task_cls (model s)) as [|x cls]; [simpl in Hpos; lia|].
  destruct (Nat.eqb_spec (list_sum (x :: cls)) 0) as [E|_]; [lia|reflexivity].
Qed.

(** C3. In class-proportional mode (alpha = -1), with [task_cls]
    listing the class counts of the tasks seen so far, 0..t, the fusion
    weight of task t is the sum of the counts of tasks 0..t-1 over the
    sum of the counts of tasks 0..t, and the update fuses with that
    weight; for the counts [2,3,5] the weight at t = 2 is 1/2. *)
Theorem class_proportional_weight {Image : Type} (C : Collab Image) (t : nat)
    (l : Loader Image) (s : Appr) (cur : Dict) :
  alpha s = qz (-1) ->
  length (task_cls (model s)) = S t ->
  (0 < list_sum (task_cls (model s)))%nat ->
  let w := (qz (Z.of_nat (list_sum (firstn t (task_cls (model s)))))
            / qz (Z.of_nat (list_sum (firstn (S t) (task_cls (model s))))))%Qc in
  fusion_weight s t = Ok w
  /\ (NoDup (map fst (backbone (model s))) ->
      shape_of (fisher s) = param_shapes (backbone (model s)) ->
      fst (compute_fisher_matrix_diag C l s) = Ok cur ->
      fst (post_train_process C t l s) = Ok tt
      /\ forall n old, dict_get (fisher s) n = Some old ->
         exists c, dict_get cur n = Some c /\ length old = length c
                   /\ dict_get (fisher (snd (post_train_process C t l s))) n
                      = Some (fuse w old c))
  /\ (task_cls (model s) = [2; 3; 5]%nat -> w = half).
Proof.
  intros Hmode Hlen Hpos w.
  pose proof (class_weight s t Hmode Hlen Hpos) as Hw. fold w in Hw.
  split; [exact Hw|]. split.
  - intros Hnd Hs Hcur.
    destruct (post_train_fused C t l s cur w Hnd Hs Hcur Hw) as (Hr & _ & _ & Hget).
    split; assumption.
  - intros Hcls. unfold w. rewrite Hcls in *. simpl in Hlen.
    injection Hlen as <-. apply Qc_is_canon. reflexivity.
Qed.

(** C7, as the code has it. The Importance Map is all zeros at
    construction; every update, the first one included, leaves under
    every parameter name the fusion weight * old value + (1 - weight)
    * new estimate, so the first update leaves (1 - weight) * new
    estimate; the Snapshot after the update is the copy of the current
    trainable parameters, whatever it held before. *)
Theorem importance_map_lifecycle {Image : Type} (C : Collab Image) :
  (forall m lamb0 alpha0 st ns ex,
      dict_all all_zero (fisher (init m lamb0 alpha0 st ns ex)))
  /\ (forall t (l : Loader Image) s cur a,
      NoDup (map fst (backbone (model s))) ->
      shape_of (fisher s) = param_shapes (backbone (model s)) ->
      fst (compute_fisher_matrix_diag C l s) = Ok cur ->
      fusion_weight s t = Ok a ->
      fst (post_train_process C t l s) = Ok tt
      /\ forall n old, dict_get (fisher s) n = Some old ->
         exists c, dict_get cur n = Some c
                   /\ dict_get (fisher (snd (post_train_process C t l s))) n
                      = Some (fuse a old c)
                   /\ (all_zero old ->
                       dict_get (fisher (snd (post_train_process C t l s))) n
                       = Some (scale (qz 1 - a)%Qc c)))
  /\ (forall t (l : Loader Image) s,
      older_params (snd (post_train_process C t l s)) = snapshot (backbone (model s))).
Proof.
  split; [|split].
  - intros m lamb0 alpha0 st ns ex. simpl. apply all_zero_zero_map.
  - intros t l s cur a Hnd Hs Hcur Ha.
    destruct (post_train_fused C t l s cur a Hnd Hs Hcur Ha) as (Hr & _ & _ & Hget).
    split; [exact Hr|]. intros n old Hold.
    destruct (Hget n old Hold) as (c & Hc & Hl & Hnew).
    exists c. split; [exact Hc|]. split; [exact Hnew|].
    intros Hz. rewrite Hnew, (fuse_from_zero a old c Hz Hl). reflexivity.
  - intros t l s. apply (post_train_snapshot C t l s).
Qed.



(** ** Batches *)

Lemma chunks_fuel_length {A : Type} (k : nat) (fuel : nat) (l : list A) :
  (0 < k)%nat -> (length l <= fuel)%nat ->
  length (chunks_fuel fuel k l) = ((length l + k - 1) / k)%nat.
Proof.
  intros Hk. revert l. induction fuel as [|fuel IH]; intros l Hl.
  - destruct l; [|simpl in Hl; lia]. simpl.
    symmetry. apply Nat.div_small. lia.
  - destruct l as [|x l'] eqn:El.
    + simpl. symmetry. apply Nat.div_small. lia.
    + rewrite <- El in *. assert (Hpos : (0 < length l)%nat) by (rewrite El; simpl; lia).
      replace (chunks_fuel (S fuel) k l)
        with (firstn k l :: chunks_fuel fuel k (skipn k l)) by (rewrite El; reflexivity).
      cbn [length]. rewrite IH by (rewrite length_skipn; lia).
      rewrite length_skipn.
      destruct (Nat.le_gt_cases (length l) k) as [Hle|Hgt].
      * replace (length l - k)%nat with 0%nat by lia.
        rewrite (Nat.div_small (0 + k - 1) k) by lia.
        apply (Nat.div_unique _ k 1 (length l - 1)); lia.
      * replace (length l + k - 1)%nat with ((length l - k + k - 1) + 1 * k)%nat by lia.
        rewrite Nat.div_add by lia. lia.
Qed.

Lemma full_chunks_length {A : Type} (k : nat) (fuel : nat) (l : list A) :
  (0 < k)%nat -> (length l <= fuel)%nat ->
  length (filter (fun c => Nat.eqb (length c) k) (chunks_fuel fuel k l))
  = (length l / k)%nat.
Proof.
  intros Hk. revert l. induction fuel as [|fuel IH]; intros l Hl.
  - destruct l; [|simpl in Hl; lia]. simpl.
    symmetry. apply Nat.div_small. lia.
  - destruct l as [|x l'] eqn:El.
    + simpl. symmetry. apply Nat.div_small. lia.
    + rewrite <- El in *. assert (Hpos : (0 < length l)%nat) by (rewrite El; simpl; lia).
      replace (chunks_fuel (S fuel) k l)
        with (firstn k l :: chunks_fuel fuel k (skipn k l)) by (rewrite El; reflexivity).
      cbn [filter]. rewrite length_firstn.
      destruct (Nat.le_gt_cases k (length l)) as [Hle|Hgt].
      * rewrite Nat.min_l by exact Hle. rewrite Nat.eqb_refl. cbn [length].
        rewrite IH by (rewrite length_skipn; lia). rewrite length_skipn.
        replace (length l) with ((length l - k) + 1 * k)%nat at 2 by lia.
        rewrite Nat.div_add by lia. lia.
      * rewrite Nat.min_r by lia.
        destruct (Nat.eqb_spec (length l) k) as [E|_]; [lia|].
        rewrite IH by (rewrite length_skipn; lia). rewrite length_skipn.
        replace (length l - k)%nat with 0%nat by lia.
        rewrite Nat.div_small by lia. symmetry. apply Nat.div_small. lia.
Qed.

Section Batches.

Context {Image : Type}.

(** The number of batches of a loader: the quotient of the dataset size
    by the batch size, rounded down with [drop_last] and up without. *)
Lemma loader_batches_length (l : Loader Image) :
  0 < batch_size l ->
  length (loader_batches l)
  = if drop_last l
    then (length (dataset l) / Z.to_nat (batch_size l))%nat
    else ((length (dataset l) + Z.to_nat (batch_size l) - 1)
          / Z.to_nat (batch_size l))%nat.
Proof.
  intros Hb. unfold loader_batches, chunks. destruct (drop_last l).
  - apply full_chunks_length; lia.
  - apply chunks_fuel_length; lia.
Qed.




End Batches.


(** ** Mismatches between the maps and the network *)

Lemma broadcast_outcome (f : Qc -> Qc -> Qc) (a b : Tensor) :
  if broadcastable (length a) (length b)
  then exists v, broadcast f a b = Ok v
                 /\ length v = broadcast_shape (length a) (length b)
  else broadcast f a b = Err RuntimeError.
Proof.
  unfold broadcastable, broadcast_shape, broadcast.
  destruct (Nat.eqb_spec (length a) (length b)) as [E|Hne]; simpl.
  - eexists. split; [reflexivity|]. rewrite zip_with_length, E. apply Nat.min_id.
  - destruct a as [|x [|x' a]]; destruct b as [|y [|y' b]]; simpl in *;
      try (exfalso; apply Hne; reflexivity); try reflexivity;
      try (eexists; split; [reflexivity|simpl; rewrite ?length_map; reflexivity]).
Qed.

Lemma penalty_step_outcome (s : Appr) (acc : Qc) (np : string * Param) :
  if accepted s np
  then exists acc', penalty_step s acc np = Ok acc'
  else exists e, penalty_step s acc np = Err e.
Proof.
  unfold accepted, penalty_step, dict_mem, dict_item.
  destruct (dict_get (fisher s) (fst np)) as [f|]; [|exists acc; reflexivity].
  destruct (dict_get (older_params s) (fst np)) as [o|]; simpl;
    [|eexists; reflexivity].
  pose proof (broadcast_outcome Qcminus (value (snd np)) o) as H1. fold sub in H1.
  destruct (broadcastable (length (value (snd np))) (length o)); simpl.
  - destruct H1 as (d & -> & Hd). simpl.
    pose proof (broadcast_outcome Qcmult f (pow2 d)) as H2. fold mul in H2.
    unfold pow2 in H2 at 1. rewrite length_map, Hd in H2.
    destruct (broadcastable (length f) _).
    + destruct H2 as (w & -> & _). simpl. eexists. reflexivity.
    + rewrite H2. simpl. eexists. reflexivity.
  - rewrite H1. simpl. eexists. reflexivity.
Qed.

Lemma penalty_loop_outcome (s : Appr) (ps : Params) (acc : Qc) :
  if forallb (accepted s) ps
  then exists r, for_each (penalty_step s) ps acc = Ok r
  else exists e, for_each (penalty_step s) ps acc = Err e.
Proof.
  revert acc. induction ps as [|np ps IH]; intros acc; simpl.
  - exists acc. reflexivity.
  - pose proof (penalty_step_outcome s acc np) as Hstep.
    destruct (accepted s np); simpl.
    + destruct Hstep as [acc' ->]. simpl. apply IH.
    + destruct Hstep as [e ->]. simpl. exists e. reflexivity.
Qed.



(** ** Pseudo-labels drawn by [multinomial] *)

Lemma mapM_ok {A B : Type} (Q : B -> Prop) (f : A -> Res B) (l : list A)
    (ys : list B) :
  (forall x y, f x = Ok y -> Q y) -> mapM f l = Ok ys ->
  length ys = length l /\ Forall Q ys.
Proof.
  intros Hf. revert ys. induction l as [|x l IH]; intros ys; simpl.
  - intros H. injection H as <-. split; [reflexivity|constructor].
  - destruct (f x) as [y|e] eqn:Hy; simpl; [|discriminate].
    destruct (mapM f l) as [ys'|e]; simpl; [|discriminate].
    intros H. injection H as <-. destruct (IH ys' eq_refl) as [Hl HQ].
    split; [simpl; rewrite Hl; reflexivity|].
    constructor; [apply (Hf x y Hy)|exact HQ].
Qed.

Lemma concat_length_const {A : Type} (k : nat) (rows : list (list A)) :
  Forall (fun r => length r = k) rows -> length (concat rows) = (length rows * k)%nat.
Proof.
  intros H. induction H as [|r rows Hr _ IH]; simpl; [reflexivity|].
  rewrite length_app, IH, Hr. reflexivity.
Qed.

Lemma cat_fold_rows (B : nat) (os : list Logits) (o : Logits) :
  length o = B -> Forall (fun o' => length o' = B) os ->
  length (fold_left (zip_with (@app Qc)) os o) = B.
Proof.
  intros Ho Hos. revert o Ho. induction Hos as [|o' os Ho' _ IH]; intros o Ho; simpl.
  - exact Ho.
  - apply IH. rewrite zip_with_length, Ho, Ho'. apply Nat.min_id.
Qed.

Lemma cat_dim1_rows (B : nat) (outs : list Logits) (lg : Logits) :
  Forall (fun o => length o = B) outs -> cat_dim1 outs = Ok lg -> length lg = B.
Proof.
  intros Hall. unfold cat_dim1. destruct outs as [|o os]; [discriminate|].
  destruct (forallb (fun o' => Nat.eqb (length o') (length o)) os); [|discriminate].
  intros H. injection H as <-. inversion Hall as [|? ? Ho Hos]; subst.
  apply cat_fold_rows; [reflexivity|exact Hos].
Qed.

Section Multinomial.

Context {Image : Type} (C : Collab Image).

Lemma forward_rows (m : Net) (images : list Image) :
  Forall (fun o => length o = length images) (forward C m images).
Proof.
  unfold forward. apply Forall_forall. intros o Ho.
  apply in_map_iff in Ho. destruct Ho as (hc & <- & _). apply length_map.
Qed.

Lemma multinomial_draws_shape (probs : Logits) (k : nat) (rows : list (list Z)) :
  multinomial_draws C probs k = Ok rows ->
  length rows = length probs /\ Forall (fun r => length r = k) rows.
Proof.
  unfold multinomial_draws. intros H.
  apply (mapM_ok (fun r => length r = k)) in H.
  - destruct H as [Hl Hr]. split; [|exact Hr].
    rewrite Hl, length_combine, length_seq. apply Nat.min_id.
  - intros irow r. destruct (Nat.leb k (length (snd irow))); [|discriminate].
    intros E. injection E as <-. rewrite length_map. apply length_seq.
Qed.

Lemma multinomial_labels (m : Net) (batch : list (Image * Z)) (preds : list Z) :
  pseudo_labels C multinomial (forward C m (map fst batch)) (map snd batch) = Ok preds ->
  length preds = (length batch * length batch)%nat.
Proof.
  unfold pseudo_labels.
  destruct (cat_dim1 (forward C m (map fst batch))) as [lg|e] eqn:Hcat; simpl;
    [|discriminate].
  destruct (multinomial_draws C (softmax_dim1 C lg) (length (map snd batch)))
    as [rows|e] eqn:Hrows; simpl; [|discriminate].
  intros H. injection H as <-.
  destruct (multinomial_draws_shape _ _ _ Hrows) as [Hl Hr].
  rewrite (concat_length_const _ _ Hr), Hl.
  unfold softmax_dim1. rewrite !length_map.
  rewrite (cat_dim1_rows _ _ _ (forward_rows m (map fst batch)) Hcat).
  rewrite length_map. reflexivity.
Qed.

End Multinomial.

(** Under [multinomial] the estimator draws [len(targets)] labels for
    every example: a batch of B examples gets B * B pseudo-labels, and
    the cross-entropy of B rows of logits against them raises as soon
    as B is 2 or more. *)
Lemma multinomial_label_count {Image : Type} (C : Collab Image) (m : Net)
    (f : Dict) (batch : list (Image * Z)) :
  (forall preds,
      pseudo_labels C multinomial (forward C m (map fst batch)) (map snd batch)
      = Ok preds ->
      length preds = (length batch * length batch)%nat)
  /\ ((2 <= length batch)%nat ->
      exists e, fst (fisher_batch C multinomial m f batch) = Err e).
Proof.
  split; [apply multinomial_labels|].
  intros HB. unfold fisher_batch.
  pose proof (multinomial_labels C m batch) as Hlen.
  destruct (pseudo_labels C multinomial _ _) as [preds|e]; simpl;
    [|exists e; reflexivity].
  specialize (Hlen preds eq_refl).
  destruct (cat_dim1 (forward C m (map fst batch))) as [lg|e] eqn:Hcat; simpl;
    [|exists e; reflexivity].
  pose proof (cat_dim1_rows _ _ _ (forward_rows C m (map fst batch)) Hcat) as Hlg.
  rewrite length_map in Hlg. unfold cross_entropy.
  destruct (Nat.eqb_spec (length lg) (length preds)) as [E|_]; simpl.
  - exfalso. rewrite Hlg, Hlen in E. nia.
  - exists ValueError. reflexivity.
Qed.

(** C9 on the code, at a batch of two examples for the network of two
    heads of 2 and 3 classes: [multinomial] draws four pseudo-labels,
    not one per example, and the batch raises. *)
Theorem multinomial_two_examples {Image : Type} (C : Collab Image) (f : Dict)
    (x1 x2 : Image) (y1 y2 : Z) :
  (exists preds,
      pseudo_labels C multinomial (forward C Example.net [x1; x2]) [y1; y2] = Ok preds
      /\ length preds = 4%nat)
  /\ fst (fisher_batch C multinomial Example.net f [(x1, y1); (x2, y2)])
     = Err ValueError.
Proof.
  split.
  - eexists. split; reflexivity.
  - reflexivity.
Qed.

(** * The properties at the concrete configurations *)

Lemma criterion_ewc_penalty_witness :
  criterion Example.collab Example.ewc_state 1 Example.outputs Example.targets
  = Ok (qz 7 + lamb Example.ewc_state * (half * ewc_sum Example.ewc_state))%Qc.
Proof.
  apply (proj1 (criterion_ewc_penalty Example.collab Example.ewc_state 1
                  Example.outputs Example.targets (qz 7) eq_refl)).
  - lia.
  - unfold parity. split; [distinct_names|split; reflexivity].
Defined.

Lemma criterion_classification_term_witness :
  criterion Example.collab Example.joint_state 1 Example.outputs Example.targets
  = Ok (qz 4000 + qz 7)%Qc
  /\ criterion Example.collab Example.ewc_state 1 Example.outputs Example.targets
     = Ok (qz 4000 + qz 7)%Qc
  /\ criterion Example.collab Example.ewc_state 1 Example.outputs [0]
     = Err IndexError.
Proof.
  assert (Hj : penalty Example.joint_state 1 = Ok (qz 4000)).
  { qc_value. }
  assert (He : penalty Example.ewc_state 1 = Ok (qz 4000)).
  { qc_value. }
  split; [|split].
  - apply (proj2 (proj1 (criterion_classification_term Example.collab
                           Example.joint_state 1 Example.outputs Example.targets
                           (qz 4000) Hj)
                    ltac:(simpl; lia) [[qz 0; qz 1; qz 0; qz 1; qz 2]] eq_refl)
             ltac:(discriminate) ltac:(constructor; [simpl; lia|constructor])).
  - apply (proj2 (proj2 (criterion_classification_term Example.collab
                           Example.ewc_state 1 Example.outputs Example.targets
                           (qz 4000) He)
                    eq_refl [[qz 0; qz 1; qz 2]] 2 eq_refl eq_refl)
             ltac:(discriminate) ltac:(constructor; [simpl; lia|constructor])).
  - rewrite (proj1 (proj2 (criterion_classification_term Example.collab
                             Example.ewc_state 1 Example.outputs [0] (qz 4000) He)
                      eq_refl [[qz 0; qz 1; qz 2]] 2 eq_refl eq_refl)).
    reflexivity.
Defined.

Lemma fixed_alpha_fusion_witness :
  fst (post_train_process Example.collab 1 Example.loader Example.ewc_state) = Ok tt
  /\ dict_get (fisher (snd (post_train_process Example.collab 1 Example.loader
                              Example.ewc_state))) "w1"
     = Some (fuse half [qz 4] [qz 4]).
Proof.
  assert (Hmode : alpha Example.ewc_state <> qz (-1)).
  { intros H. apply (f_equal this) in H. vm_compute in H. discriminate H. }
  assert (Hnd : NoDup (map fst (backbone (model Example.ewc_state)))).
  { distinct_names. }
  assert (Hcur : fst (compute_fisher_matrix_diag Example.collab Example.loader
                        Example.ewc_state) = Ok Example.estimate).
  { apply estimate_eqb_eq. vm_compute. reflexivity. }
  destruct (fixed_alpha_fusion Example.collab 1 Example.loader Example.ewc_state
              Example.estimate Hmode Hnd eq_refl Hcur) as (Hr & Hget & _).
  split; [exact Hr|].
  destruct (Hget "w1"%string [qz 4] eq_refl) as (c & Hc & _ & Hnew).
  simpl in Hc. injection Hc as <-. exact Hnew.
Defined.

Lemma class_proportional_weight_witness :
  fusion_weight Example.class_state 2 = Ok half.
Proof.
  destruct (class_proportional_weight Example.collab 2 Example.loader
              Example.class_state Example.estimate eq_refl eq_refl
              ltac:(simpl; lia)) as (Hw & _ & Hhalf).
  rewrite <- (Hhalf eq_refl). exact Hw.
Defined.



Lemma post_train_zero_drift_witness :
  (forall n p,
      In (n, p) (backbone (model (snd (post_train_process Example.collab 1
                                         Example.loader Example.ewc_state)))) ->
      requires_grad p = true ->
      exists o,
        dict_get (older_params (snd (post_train_process Example.collab 1
                                       Example.loader Example.ewc_state))) n = Some o
        /\ sub (value p) o = Ok (zeros (length (value p))))
  /\ fst (fisher_batch Example.collab max_pred Example.net Example.estimate [(tt, 0)])
     = fst (fisher_batch Example.collab max_pred Example.stale_net Example.estimate
              [(tt, 0)]).
Proof.
  destruct (post_train_zero_drift Example.collab 1 Example.loader Example.ewc_state)
    as (_ & _ & Hreset & _ & _ & Hdrift).
  split.
  - apply Hdrift. vm_compute. distinct_names.
  - apply Hreset. reflexivity.
Defined.

Lemma importance_map_lifecycle_witness :
  fst (post_train_process Example.collab 0 Example.loader Example.fresh) = Ok tt
  /\ dict_get (fisher (snd (post_train_process Example.collab 0 Example.loader
                              Example.fresh))) "w1"
     = Some (scale (qz 1 - half)%Qc [qz 4]).
Proof.
  assert (Hnd : NoDup (map fst (backbone (model Example.fresh)))).
  { distinct_names. }
  assert (Hcur : fst (compute_fisher_matrix_diag Example.collab Example.loader
                        Example.fresh) = Ok Example.estimate).
  { apply estimate_eqb_eq. vm_compute. reflexivity. }
  assert (Ha : fusion_weight Example.fresh 0 = Ok half).
  { qc_value. }
  destruct (proj1 (proj2 (importance_map_lifecycle Example.collab))
              0%nat Example.loader Example.fresh Example.estimate half
              Hnd eq_refl Hcur Ha) as (Hr & Hget).
  split; [exact Hr|].
  destruct (Hget "w1"%string (zeros 1) eq_refl) as (c & Hc & _ & Hzero).
  simpl in Hc. injection Hc as <-. apply Hzero. reflexivity.
Defined.

(** Counterexample to C7 as stated: the first update of the object as constructed,
    with the default weight 1/2, completes and leaves half of the
    estimate, not the estimate. *)
Lemma first_update_not_replaced :
  fisher Example.fresh = [("w1"%string, zeros 1); ("w2"%string, zeros 1)]
  /\ fst (compute_fisher_matrix_diag Example.collab Example.loader Example.fresh)
     = Ok Example.estimate
  /\ fst (post_train_process Example.collab 0 Example.loader Example.fresh) = Ok tt
  /\ fisher (snd (post_train_process Example.collab 0 Example.loader Example.fresh))
     <> Example.estimate.
Proof.
  split; [reflexivity|]. split.
  { apply estimate_eqb_eq. vm_compute. reflexivity. }
  split; [vm_compute; reflexivity|].
  apply dict_eqb_neq. vm_compute. reflexivity.
Qed.





(** * Further properties of the code *)

(** ** [criterion] *)

Lemma sum_nonneg (v : Tensor) : nonneg_tensor v -> (0 <= sum v)%Qc.
Proof.
  intros H. induction H as [|x v Hx _ IH].
  - rewrite sum_nil. apply Qcle_refl.
  - rewrite sum_cons. apply Qc_plus_nonneg; assumption.
Qed.

Lemma pow2_nonneg (d : Tensor) : nonneg_tensor (pow2 d).
Proof.
  unfold nonneg_tensor, pow2.
  apply Forall_map_impl with (P := fun _ => True).
  - intros x _. apply Qc_sq_nonneg.
  - apply Forall_forall. intros; exact I.
Qed.

Lemma weighted_drift_nonneg (f p o : Tensor) :
  nonneg_tensor f -> (0 <= weighted_drift f p o)%Qc.
Proof.
  intros Hf. unfold weighted_drift. apply sum_nonneg.
  apply (Forall_zip_with (fun x => (qz 0 <= x)%Qc) (fun x => (qz 0 <= x)%Qc)).
  - intros x y Hx Hy. apply Qc_mult_nonneg; assumption.
  - exact Hf.
  - apply pow2_nonneg.
Qed.

Lemma ewc_sum_nonneg (s : Appr) : nonneg (fisher s) -> (0 <= ewc_sum s)%Qc.
Proof.
  intros Hf. unfold ewc_sum. apply sum_nonneg.
  apply Forall_map_impl with (P := fun _ => True).
  - intros np _. unfold ewc_term.
    destruct (dict_get (fisher s) (fst np)) as [f|] eqn:Hg; [|apply Qcle_refl].
    destruct (dict_get (older_params s) (fst np)) as [o|]; [|apply Qcle_refl].
    apply weighted_drift_nonneg. apply (nonneg_get _ _ _ Hf Hg).
  - apply Forall_forall. intros; exact I.
Qed.

(** X1. With lambda = 0 and a task index t > 0 the loss is the
    classification term, up to its exceptions, when every backbone
    parameter is accepted; the loop over the parameters still runs, and
    a parameter that is not accepted still raises. *)
Theorem criterion_lambda_zero {Image : Type} (C : Collab Image) (s : Appr) (t : nat)
    (outputs : list Logits) (targets : list Z) :
  lamb s = qz 0 -> (0 < t)%nat ->
  (forallb (accepted s) (backbone (model s)) = true ->
   criterion C s t outputs targets = classification_term C s t outputs targets)
  /\ (forallb (accepted s) (backbone (model s)) = false ->
      exists e, criterion C s t outputs targets = Err e).
Proof.
  intros Hl Ht.
  pose proof (penalty_loop_outcome s (backbone (model s)) (qz 0)) as H.
  unfold criterion, penalty.
  destruct (Nat.ltb_spec 0 t) as [_|Hle]; [|lia].
  split; intros Hacc; rewrite Hacc in H.
  - destruct H as [r ->]. simpl.
    destruct (classification_term C s t outputs targets) as [c|e]; simpl;
      [|reflexivity].
    f_equal. rewrite Hl, qz_0. ring.
  - destruct H as [e ->]. simpl. exists e. reflexivity.
Qed.

(** X2. With maps of the shape of the network, an Importance Map
    without negative entry and lambda >= 0, the loss is the
    classification term plus a penalty that is not negative, for every
    task index. *)
Theorem criterion_at_least_classification {Image : Type} (C : Collab Image)
    (s : Appr) (t : nat) (outputs : list Logits) (targets : list Z) (c : Qc) :
  parity s -> nonneg (fisher s) -> (0 <= lamb s)%Qc ->
  classification_term C s t outputs targets = Ok c ->
  exists r, criterion C s t outputs targets = Ok (c + r)%Qc /\ (0 <= r)%Qc.
Proof.
  intros Hp Hf Hl Hc. unfold criterion. destruct t as [|t].
  - rewrite penalty_first_task. simpl. rewrite Hc. simpl.
    exists 0%Qc. split; [f_equal; rewrite qz_0; ring|apply Qcle_refl].
  - rewrite penalty_parity by (try assumption; lia). simpl. rewrite Hc. simpl.
    exists (lamb s * (half * ewc_sum s))%Qc. split; [f_equal; ring|].
    apply Qc_mult_nonneg; [exact Hl|].
    apply Qc_mult_nonneg; [|apply ewc_sum_nonneg; exact Hf].
    unfold Qcle, Qle. simpl. lia.
Qed.

(** X3. With exemplars the loss does not depend on the task index,
    among the indices t > 0; without exemplars a task index that has no
    head output or no label offset raises [IndexError]. *)
Theorem criterion_task_index {Image : Type} (C : Collab Image) (s : Appr)
    (outputs : list Logits) (targets : list Z) :
  ((0 < exemplars_len s)%nat ->
   forall t t', (0 < t)%nat -> (0 < t')%nat ->
   criterion C s t outputs targets = criterion C s t' outputs targets)
  /\ (exemplars_len s = 0%nat ->
      forall t loss, penalty s t = Ok loss ->
      (length outputs <= t)%nat \/ (length (task_offset (model s)) <= t)%nat ->
      criterion C s t outputs targets = Err IndexError).
Proof.
  split.
  - intros He t t' Ht Ht'. unfold criterion, penalty, classification_term.
    destruct (Nat.ltb_spec 0 t) as [_|]; [|lia].
    destruct (Nat.ltb_spec 0 t') as [_|]; [|lia].
    destruct (Nat.ltb_spec 0 (exemplars_len s)) as [_|]; [|lia]. reflexivity.
  - intros He t loss Hl Hout. unfold criterion, classification_term.
    rewrite Hl, He. simpl. unfold index.
    destruct (nth_error outputs t) as [o|] eqn:Ho; simpl; [|reflexivity].
    destruct Hout as [Hout|Hout].
    + apply nth_error_None in Hout. congruence.
    + apply nth_error_None in Hout. rewrite Hout. reflexivity.
Qed.

(** ** [compute_fisher_matrix_diag] *)

Lemma iadd_same_shape (a b : Tensor) :
  length a = length b -> iadd a b = Ok (zip_with Qcplus a b).
Proof. intros H. unfold iadd. rewrite H, Nat.eqb_refl. reflexivity. Qed.

Lemma plus_zeros (a : Tensor) : zip_with Qcplus a (zeros (length a)) = a.
Proof.
  unfold zeros. induction a as [|x a IH]; simpl; [reflexivity|].
  rewrite IH. f_equal. rewrite qz_0. ring.
Qed.

(** The loop over the parameters adds, under the name of every
    parameter with a gradient, the square of the gradient times the
    batch length. *)
Lemma accumulate_loop (k : nat) (ps : Params) (f : Dict) :
  NoDup (map fst ps) ->
  (forall n p g, In (n, p) ps -> grad p = Some g ->
                 exists old, dict_get f n = Some old /\ length old = length g) ->
  exists f', for_each (accumulate k) ps f = Ok f'
    /\ shape_of f' = shape_of f
    /\ (forall n p old, In (n, p) ps -> dict_get f n = Some old ->
        dict_get f' n
        = Some (match grad p with
                | Some g => zip_with Qcplus old (times (pow2 g) (qz (Z.of_nat k)))
                | None => old
                end))
    /\ (forall n, ~ In n (map fst ps) -> dict_get f' n = dict_get f n).
Proof.
  revert f. induction ps as [|[n0 p0] ps IH]; intros f Hnd Hf; simpl.
  - exists f. split; [reflexivity|]. split; [reflexivity|]. split; [|reflexivity].
    intros n p old [].
  - simpl in Hnd. inversion Hnd as [|? ? Hn0 Hnd']; subst.
    assert (Hstep : exists f1, accumulate k f (n0, p0) = Ok f1
              /\ shape_of f1 = shape_of f
              /\ (forall old, dict_get f n0 = Some old ->
                  dict_get f1 n0
                  = Some (match grad p0 with
                          | Some g => zip_with Qcplus old
                                        (times (pow2 g) (qz (Z.of_nat k)))
                          | None => old
                          end))
              /\ (forall n, n <> n0 -> dict_get f1 n = dict_get f n)).
    { unfold accumulate, dict_item. simpl.
      destruct (grad p0) as [g|] eqn:Hg.
      - destruct (Hf n0 p0 g (or_introl eq_refl) Hg) as (old & Hold & Hl).
        rewrite Hold. simpl. rewrite iadd_same_shape.
        + simpl. eexists. split; [reflexivity|]. split; [|split].
          * apply (dict_set_shape f n0 _ old Hold).
            rewrite zip_with_length. unfold times, pow2. rewrite !length_map, Hl.
            apply Nat.min_id.
          * intros old' Hold'. rewrite dict_get_set_same.
            injection Hold' as <-. reflexivity.
          * intros n Hn. apply dict_get_set_other. intros E. apply Hn.
            symmetry. exact E.
        + unfold times, pow2. rewrite !length_map. exact Hl.
      - exists f. split; [reflexivity|]. split; [reflexivity|].
        split; [intros old Hold; exact Hold|reflexivity]. }
    destruct Hstep as (f1 & -> & Hs1 & Hsame & Hother). simpl.
    destruct (IH f1 Hnd') as (f' & Hrun & Hs & Hin & Hout).
    { intros n p g Hin Hg.
      destruct (Hf n p g (or_intror Hin) Hg) as (old & Hold & Hl).
      exists old. split; [|exact Hl]. rewrite Hother; [exact Hold|].
      intros ->. apply Hn0. apply (in_map fst) in Hin. exact Hin. }
    exists f'. split; [exact Hrun|]. split; [congruence|]. split.
    + intros n p old [E|Hin'] Hold.
      * injection E as <- <-. rewrite Hout by exact Hn0. apply Hsame. exact Hold.
      * apply Hin; [exact Hin'|]. rewrite Hother; [exact Hold|].
        intros ->. apply Hn0. apply (in_map fst) in Hin'. exact Hin'.
    + intros n Hn. rewrite Hout by (intros Hn'; apply Hn; right; exact Hn').
      apply Hother. intros ->. apply Hn. left. reflexivity.
Qed.

Section EstimateValue.

Context {Image : Type} (C : Collab Image).

(** The buffers after [zero_grad] and [backward]: the gradient of the
    batch for a trainable parameter of the graph, nothing otherwise. *)
Lemma backward_buffers (m : Net) (images : list Image) (preds : list Z) :
  backbone (backward C (zero_grad m) images preds)
  = map (fun np =>
           (fst np,
            {| value := value (snd np);
               requires_grad := requires_grad (snd np);
               grad := if requires_grad (snd np)
                       then option_map
                              (fun g => map g (seq 0 (length (value (snd np)))))
                              (grad_ce C (values (backbone m)) (heads m) (training m)
                                 images preds (fst np))
                       else None |}))
        (backbone m).
Proof.
  unfold backward.
  change (heads (zero_grad m)) with (heads m).
  change (training (zero_grad m)) with (training m).
  change (backbone (zero_grad m)) with (backbone (zero_grad (train m))).
  rewrite values_frame. unfold zero_grad, train, set_backbone. simpl.
  rewrite map_map. apply map_ext. intros [n p]. simpl.
  destruct (requires_grad p) eqn:Hg; [|simpl; rewrite ?Hg; reflexivity].
  destruct (grad_ce C _ _ _ _ _ n); simpl; rewrite ?Hg; reflexivity.
Qed.

Lemma fisher_batch_labels (st : SamplingType) (m : Net) (f f1 : Dict)
    (b : list (Image * Z)) :
  fst (fisher_batch C st m f b) = Ok f1 ->
  exists preds, batch_labels C st m b = Ok preds.
Proof.
  unfold fisher_batch, batch_labels.
  destruct (preds <- pseudo_labels C st _ _ ;; _) as [preds|e]; simpl;
    [|discriminate].
  intros _. exists preds. reflexivity.
Qed.

(** A batch whose labels are accepted adds its term under the name of
    every trainable parameter. *)
Lemma fisher_batch_value (st : SamplingType) (m : Net) (f : Dict)
    (b : list (Image * Z)) (preds : list Z) :
  batch_labels C st m b = Ok preds ->
  NoDup (map fst (backbone m)) ->
  shape_of f = param_shapes (backbone m) ->
  exists f', fst (fisher_batch C st m f b) = Ok f'
    /\ shape_of f' = shape_of f
    /\ (forall n p old, In (n, p) (backbone m) -> requires_grad p = true ->
        dict_get f n = Some old ->
        dict_get f' n
        = Some (zip_with Qcplus old (batch_term C st m b n (length (value p))))).
Proof.
  intros Hlab Hnd Hs. unfold fisher_batch.
  assert (E : (preds0 <- pseudo_labels C st (forward C m (map fst b)) (map snd b) ;;
               lg <- cat_dim1 (forward C m (map fst b)) ;;
               _ <- cross_entropy C lg preds0 ;; Ok preds0) = Ok preds)
    by exact Hlab.
  rewrite E. cbn [fst].
  rewrite backward_buffers.
  set (T := fun np : string * Param =>
              (fst np,
               {| value := value (snd np);
                  requires_grad := requires_grad (snd np);
                  grad := if requires_grad (snd np)
                          then option_map
                                 (fun g => map g (seq 0 (length (value (snd np)))))
                                 (grad_ce C (values (backbone m)) (heads m)
                                    (training m) (map fst b) preds (fst np))
                          else None |})).
  destruct (accumulate_loop (length (map snd b)) (map T (backbone m)) f)
    as (f' & Hrun & Hsh & Hin & _).
  { rewrite map_map. simpl. exact Hnd. }
  { intros n p' g Hin Hg. apply in_map_iff in Hin.
    destruct Hin as ([n0 p] & E0 & Hin). unfold T in E0. simpl in E0.
    injection E0 as <- <-. simpl in Hg.
    pose proof (shape_lookup f (backbone m) n0 p Hs Hnd Hin) as L.
    destruct (requires_grad p); [|discriminate].
    destruct L as (old & Hold & Hl). exists old. split; [exact Hold|].
    destruct (grad_ce C _ _ _ _ _ n0) as [g0|]; simpl in Hg; [|discriminate].
    injection Hg as <-. rewrite length_map, length_seq. exact Hl. }
  exists f'. split; [exact Hrun|]. split; [exact Hsh|].
  intros n p old Hp Hg Hold.
  rewrite (Hin n (snd (T (n, p))) old); [|apply (in_map T) in Hp; exact Hp|exact Hold].
  unfold T. simpl. rewrite Hg. unfold batch_term. rewrite Hlab.
  rewrite length_map.
  pose proof (shape_lookup f (backbone m) n p Hs Hnd Hp) as L. rewrite Hg in L.
  destruct L as (old' & Hold' & Hl). rewrite Hold in Hold'. injection Hold' as <-.
  destruct (grad_ce C _ _ _ _ _ n) as [g0|]; simpl; [reflexivity|].
  rewrite <- Hl, plus_zeros. reflexivity.
Qed.

End EstimateValue.

Section SameWeights.

Context {Image : Type} (C : Collab Image).

Lemma same_weights_values (m1 m2 : Net) :
  zero_grad m1 = zero_grad m2 -> values (backbone m1) = values (backbone m2).
Proof.
  intros H. rewrite <- (values_frame m1), <- (values_frame m2).
  change (backbone (zero_grad (train m1))) with (backbone (zero_grad m1)).
  change (backbone (zero_grad (train m2))) with (backbone (zero_grad m2)).
  rewrite H. reflexivity.
Qed.

Lemma same_weights_names (m1 m2 : Net) :
  zero_grad m1 = zero_grad m2 -> map fst (backbone m1) = map fst (backbone m2).
Proof.
  intros H.
  pose proof (same_weights_values m1 m2 H) as V. unfold values in V.
  apply (f_equal (map fst)) in V. rewrite !map_map in V. exact V.
Qed.

Lemma same_weights_shapes (m1 m2 : Net) :
  zero_grad m1 = zero_grad m2 ->
  param_shapes (backbone m1) = param_shapes (backbone m2).
Proof.
  intros H. rewrite <- (param_shapes_frame m1), <- (param_shapes_frame m2).
  rewrite (train_of_zero_grad m2 m1 H). reflexivity.
Qed.

Lemma same_weights_member (m1 m2 : Net) n p :
  zero_grad m1 = zero_grad m2 -> In (n, p) (backbone m2) ->
  exists p', In (n, p') (backbone m1) /\ value p' = value p
             /\ requires_grad p' = requires_grad p.
Proof.
  intros H Hin. apply (f_equal backbone) in H. unfold zero_grad in H. simpl in H.
  set (strip := fun np : string * Param =>
                  (fst np, {| value := value (snd np);
                              requires_grad := requires_grad (snd np);
                              grad := None |})) in H.
  apply (in_map strip) in Hin. rewrite <- H in Hin.
  apply in_map_iff in Hin. destruct Hin as ([n' p'] & E & Hin).
  unfold strip in E. simpl in E. injection E as -> Hv Hr.
  exists p'. repeat split; assumption.
Qed.

Lemma batch_labels_same (st : SamplingType) (m1 m2 : Net) (b : list (Image * Z)) :
  zero_grad m1 = zero_grad m2 -> batch_labels C st m1 b = batch_labels C st m2 b.
Proof.
  intros H. unfold batch_labels. rewrite (forward_same_weights C m1 m2 _ H).
  reflexivity.
Qed.

Lemma batch_term_same (st : SamplingType) (m1 m2 : Net) (b : list (Image * Z))
    (n : string) (shape : nat) :
  zero_grad m1 = zero_grad m2 ->
  batch_term C st m1 b n shape = batch_term C st m2 b n shape.
Proof.
  intros H. unfold batch_term.
  rewrite (batch_labels_same st m1 m2 b H), (same_weights_values m1 m2 H).
  pose proof (f_equal heads H) as Hh. pose proof (f_equal training H) as Ht.
  simpl in Hh, Ht. rewrite Hh, Ht. reflexivity.
Qed.

(** The loop over the batches adds the terms of the batches, computed
    with the weights the estimator found. *)
Lemma fisher_loop_value (st : SamplingType) (m0 : Net) :
  NoDup (map fst (backbone m0)) ->
  forall bs m f f',
  zero_grad m = zero_grad m0 ->
  shape_of f = param_shapes (backbone m0) ->
  fst (fisher_loop C st bs m f) = Ok f' ->
  shape_of f' = shape_of f
  /\ forall n p old, In (n, p) (backbone m0) -> requires_grad p = true ->
     dict_get f n = Some old ->
     dict_get f' n
     = Some (fold_left
               (fun acc b =>
                  zip_with Qcplus acc (batch_term C st m0 b n (length (value p))))
               bs old).
Proof.
  intros Hnd. induction bs as [|b bs IH]; intros m f f' Hm Hs; simpl.
  - intros H. injection H as <-. split; [reflexivity|].
    intros n p old _ _ Hold. exact Hold.
  - pose proof (fun f1 => fisher_batch_labels C st m f f1 b) as Hlab.
    pose proof (fisher_batch_frame C st m f b) as Hfr.
    pose proof (fun preds => fisher_batch_value C st m f b preds) as Hval.
    destruct (fisher_batch C st m f b) as [[f1|e] m1]; simpl in *; [|discriminate].
    destruct (Hlab f1 eq_refl) as [preds Hpreds].
    destruct (Hval preds Hpreds) as (f1' & E & Hs1 & Hget).
    { rewrite (same_weights_names m m0 Hm). exact Hnd. }
    { rewrite (same_weights_shapes m m0 Hm). exact Hs. }
    injection E as <-.
    intros Hrun.
    destruct (IH m1 f1 f' (eq_trans Hfr Hm) (eq_trans Hs1 Hs) Hrun) as [Hs' Hrest].
    split; [congruence|].
    intros n p old Hin Hg Hold.
    destruct (same_weights_member m m0 n p Hm Hin) as (p' & Hin' & Hv & Hr).
    apply (Hrest n p); [exact Hin|exact Hg|].
    rewrite (Hget n p' old Hin'); [|congruence|exact Hold].
    rewrite Hv, (batch_term_same st m m0 b n _ Hm). reflexivity.
Qed.

End SameWeights.

Lemma mean_map_get (acc d : Dict) (n_samples : Z) (n : string) (v : Tensor) :
  mean_map acc n_samples = Ok d -> dict_get acc n = Some v ->
  dict_get d n = Some (map (fun x => x / qz n_samples)%Qc v).
Proof.
  unfold mean_map, dict_get. revert d. induction acc as [|[k x] acc IH]; intros d; simpl.
  - intros _ H. discriminate H.
  - destruct (div_int x n_samples) as [y|e] eqn:Hy; simpl; [|discriminate].
    destruct (mapM _ acc) as [d'|e] eqn:Hd; simpl; [|discriminate].
    intros H. injection H as <-. simpl.
    destruct (String.eqb k n).
    + intros Hv. injection Hv as <-. destruct (div_int_ok _ _ _ Hy) as [_ ->].
      reflexivity.
    + apply IH. reflexivity.
Qed.

Lemma zero_map_lookup (ps : Params) n p :
  NoDup (map fst ps) -> In (n, p) ps -> requires_grad p = true ->
  dict_get (zero_map ps) n = Some (zeros (length (value p))).
Proof.
  intros Hnd Hin Hg. rewrite zero_map_nodup by exact Hnd.
  unfold dict_get. rewrite (assoc_map (fun q => zeros (length (value q)))).
  rewrite (assoc_in_nodup (trainable ps) n p); [reflexivity| |].
  - apply filter_keys_nodup. exact Hnd.
  - apply filter_In. split; assumption.
Qed.

(** X4. A returned estimate holds, under the name of every trainable
    backbone parameter and element by element, the sum over the batches
    consumed of (gradient of the batch)^2 * (length of the batch),
    divided by (batches asked for * batch size); a trainable parameter
    without gradient gets zeros, and the gradients are those at the
    weights the estimator found, in training mode. *)
Theorem fisher_estimate_value {Image : Type} (C : Collab Image) (l : Loader Image)
    (s : Appr) (cur : Dict) (k : Z) (bs : list (list (Image * Z))) :
  NoDup (map fst (backbone (model s))) ->
  n_samples_batches s l = Ok k -> islice l k = Ok bs ->
  fst (compute_fisher_matrix_diag C l s) = Ok cur ->
  forall n p, In (n, p) (backbone (model s)) -> requires_grad p = true ->
  dict_get cur n
  = Some (map (fun x => x / qz (k * batch_size l))%Qc
              (squares_sum C (sampling_type s) (train (model s)) bs n
                 (length (value p)))).
Proof.
  intros Hnd Hk Hbs. unfold compute_fisher_matrix_diag. rewrite Hk, Hbs.
  pose proof (fisher_loop_value C (sampling_type s) (train (model s)) Hnd bs
                (train (model s)) (zero_map (backbone (model s)))) as Hloop.
  destruct (fisher_loop C (sampling_type s) bs (train (model s)) _) as [[acc|e] m2];
    simpl; [|discriminate].
  intros Hmean n p Hin Hg.
  destruct (Hloop acc eq_refl (zero_map_shape _ Hnd) eq_refl) as [_ Hget].
  apply (mean_map_get _ _ _ _ _ Hmean).
  apply (Hget n p); [exact Hin|exact Hg|].
  apply zero_map_lookup; assumption.
Qed.

(** ** When the estimator returns *)

Lemma mapM_total {A B : Type} (f : A -> Res B) (l : list A) :
  (forall x, In x l -> exists y, f x = Ok y) -> exists ys, mapM f l = Ok ys.
Proof.
  induction l as [|x l IH]; intros H; simpl.
  - exists []. reflexivity.
  - destruct (H x (or_introl eq_refl)) as [y ->]. simpl.
    destruct IH as [ys ->]; [intros z Hz; apply H; right; exact Hz|].
    simpl. eexists. reflexivity.
Qed.

Lemma cat_fold_widths (os : list Logits) (ws : list nat) :
  Forall2 (fun o' w' => Forall (fun r => length r = w') o') os ws ->
  forall (o : Logits) (w : nat),
  Forall (fun r => length r = w) o ->
  Forall (fun r => length r = (w + list_sum ws)%nat)
         (fold_left (zip_with (@app Qc)) os o).
Proof.
  intros H. induction H as [|o' w' os ws Ho' _ IH]; intros o w Ho; simpl.
  - eapply Forall_impl; [|exact Ho]. intros r Hr. simpl in Hr. lia.
  - eapply Forall_impl; [|apply (IH (zip_with (@app Qc) o o') (w + w')%nat)].
    + intros r Hr. simpl in Hr. lia.
    + apply (Forall_zip_with (fun r => length r = w) (fun r => length r = w'));
        [|exact Ho|exact Ho'].
      intros x y Hx Hy. rewrite length_app, Hx, Hy. reflexivity.
Qed.

Lemma combine_seq_snd {A : Type} (a : nat) (l : list A) :
  map snd (combine (seq a (length l)) l) = l.
Proof.
  revert a. induction l as [|x l IH]; intros a; simpl; [reflexivity|].
  rewrite IH. reflexivity.
Qed.

Section Returns.

Context {Image : Type} (C : Collab Image).

Lemma forward_widths (m : Net) (images : list Image) :
  Forall2 (fun o w => Forall (fun r => length r = w) o)
          (forward C m images) (task_cls m).
Proof.
  assert (G : forall hcs : list (nat * nat),
            Forall2 (fun o w => Forall (fun r => length r = w) o)
              (map (fun hc =>
                      map (fun x =>
                             map (logit C (values (backbone m)) (heads m)
                                    (training m) x (fst hc))
                                 (seq 0 (snd hc)))
                          images) hcs)
              (map snd hcs)).
  { induction hcs as [|hc hcs IH]; simpl; constructor; [|exact IH].
    apply Forall_forall. intros r Hr. apply in_map_iff in Hr.
    destruct Hr as (x & <- & _). rewrite length_map. apply length_seq. }
  unfold forward.
  specialize (G (combine (seq 0 (length (task_cls m))) (task_cls m))).
  rewrite combine_seq_snd in G. exact G.
Qed.

(** The concatenation of the outputs of a network with at least one
    head: one row per image, one column per class. *)
Lemma cat_forward (m : Net) (images : list Image) :
  task_cls m <> [] ->
  exists lg, cat_dim1 (forward C m images) = Ok lg
             /\ length lg = length images
             /\ Forall (fun r => length r = list_sum (task_cls m)) lg.
Proof.
  intros Hne. pose proof (forward_rows C m images) as Hrows.
  pose proof (forward_widths m images) as Hw.
  destruct (task_cls m) as [|c cls]; [contradiction|].
  destruct (forward C m images) as [|o os]; [inversion Hw|].
  inversion Hrows as [|? ? Ho Hos]; subst. inversion Hw as [|? ? ? ? Hwo Hwos]; subst.
  unfold cat_dim1.
  assert (Hall : forallb (fun o' => Nat.eqb (length o') (length o)) os = true).
  { apply forallb_forall. intros o' Ho'. rewrite Forall_forall in Hos.
    rewrite (Hos o' Ho'), Ho. apply Nat.eqb_refl. }
  rewrite Hall. eexists. split; [reflexivity|]. split.
  - apply cat_fold_rows; assumption.
  - apply (cat_fold_widths os cls Hwos o c Hwo).
Qed.

Lemma argmax_total (lg : Logits) (w : nat) :
  (0 < w)%nat -> Forall (fun r => length r = w) lg ->
  exists preds, argmax_dim1 lg = Ok preds /\ length preds = length lg.
Proof.
  intros Hw Hlg. unfold argmax_dim1.
  destruct (mapM_total
              (fun row => match row with
                          | [] => Err IndexError
                          | x :: row' => Ok (Z.of_nat (argmax_from x 0%nat 1%nat row'))
                          end) lg) as [preds Hp].
  { intros row Hrow. rewrite Forall_forall in Hlg. specialize (Hlg row Hrow).
    destruct row; [simpl in Hlg; lia|]. eexists. reflexivity. }
  exists preds. split; [exact Hp|].
  apply (mapM_ok (fun _ => True)) in Hp; [apply Hp|trivial].
Qed.

Lemma argmax_from_bound (row : list Qc) (best : Qc) (ibest i : nat) :
  (ibest < i)%nat -> (argmax_from best ibest i row < i + length row)%nat.
Proof.
  revert best ibest i. induction row as [|x row IH]; intros best ibest i Hi; simpl.
  - lia.
  - destruct (Qclt_le_dec best x).
    + specialize (IH x i (S i)). lia.
    + specialize (IH best ibest (S i)). lia.
Qed.

(** The arg-max of a row is one of its columns. *)
Lemma argmax_columns (lg : Logits) (w : nat) (preds : list Z) :
  Forall (fun r => length r = w) lg -> argmax_dim1 lg = Ok preds ->
  Forall (fun l => 0 <= l < Z.of_nat w) preds.
Proof.
  unfold argmax_dim1. revert preds.
  induction lg as [|row lg IH]; intros preds Hw; simpl.
  - intros H. injection H as <-. constructor.
  - inversion Hw as [|? ? Hrow Hlg]; subst.
    destruct row as [|x row]; simpl; [discriminate|].
    destruct (mapM _ lg) as [ys|e]; simpl; [|discriminate].
    intros H. injection H as <-. constructor; [|apply IH; [exact Hlg|reflexivity]].
    pose proof (argmax_from_bound row x 0 1 ltac:(lia)) as Hb. simpl. lia.
Qed.

Lemma labels_of_width (lg : Logits) (y : list Z) (w : nat) :
  Forall (fun r => length r = w) lg -> length lg = length y ->
  Forall (fun l => 0 <= l < Z.of_nat w) y -> labels_in_range lg y.
Proof.
  unfold labels_in_range. revert y.
  induction lg as [|row lg IH]; intros [|l y] Hw Hlen Hy; try discriminate.
  - constructor.
  - inversion Hw; subst. inversion Hy; subst. constructor.
    + assumption.
    + apply IH; [assumption|simpl in Hlen; lia|assumption].
Qed.

(** With the ground truth naming classes of the network, or with the
    arg-max prediction, the labels of a batch that is not empty are
    accepted: one label per example. *)
Lemma batch_labels_total (st : SamplingType) (m : Net) (b : list (Image * Z)) :
  st <> multinomial -> task_cls m <> [] -> b <> [] ->
  (st = max_pred -> (0 < list_sum (task_cls m))%nat) ->
  (st = true_labels ->
   Forall (fun xy => 0 <= snd xy < Z.of_nat (list_sum (task_cls m))) b) ->
  exists preds, batch_labels C st m b = Ok preds /\ length preds = length b.
Proof.
  intros Hst Hne Hb Hpos Htrue. unfold batch_labels.
  destruct (cat_forward m (map fst b) Hne) as (lg & Hcat & Hlen & Hw).
  rewrite length_map in Hlen.
  destruct st; [| |contradiction].
  - simpl. rewrite Hcat. simpl.
    rewrite cross_entropy_in_range.
    + simpl. eexists. split; [reflexivity|]. apply length_map.
    + apply (labels_of_width lg (map snd b) _ Hw).
      * rewrite length_map. exact Hlen.
      * apply Forall_map. exact (Htrue eq_refl).
    + destruct b; [contradiction|discriminate].
  - simpl. rewrite Hcat. simpl.
    destruct (argmax_total lg _ (Hpos eq_refl) Hw) as (preds & Hpreds & Hp).
    rewrite Hpreds. simpl.
    rewrite cross_entropy_in_range.
    + simpl. exists preds. split; [reflexivity|congruence].
    + apply (labels_of_width lg preds _ Hw); [congruence|].
      apply (argmax_columns lg _ preds Hw Hpreds).
    + destruct preds; [|discriminate].
      destruct b; [contradiction|]. simpl in Hlen, Hp. lia.
Qed.

Lemma chunks_fuel_members {A : Type} (Q : A -> Prop) (k fuel : nat) (l : list A) :
  (0 < k)%nat -> Forall Q l ->
  Forall (fun c => c <> [] /\ Forall Q c) (chunks_fuel fuel k l).
Proof.
  intros Hk. revert l. induction fuel as [|fuel IH]; intros l Hl; simpl.
  - constructor.
  - destruct l as [|x l']; [constructor|].
    rewrite <- (firstn_skipn k (x :: l')) in Hl. apply Forall_app in Hl.
    destruct Hl as [H1 H2]. constructor.
    + split; [|exact H1]. destruct k; [lia|]. discriminate.
    + apply IH. exact H2.
Qed.

(** The batches of a loader are not empty and hold examples of its
    dataset. *)
Lemma loader_batches_members (Q : Image * Z -> Prop) (l : Loader Image) (k : nat) :
  0 < batch_size l -> Forall Q (dataset l) ->
  Forall (fun c => c <> [] /\ Forall Q c) (firstn k (loader_batches l)).
Proof.
  intros Hb HQ.
  assert (H : Forall (fun c => c <> [] /\ Forall Q c) (loader_batches l)).
  { unfold loader_batches, chunks.
    pose proof (chunks_fuel_members Q (Z.to_nat (batch_size l))
                  (length (dataset l)) (dataset l) ltac:(lia) HQ) as Hc.
    destruct (drop_last l); [|exact Hc].
    rewrite Forall_forall in *. intros c Hin. apply filter_In in Hin.
    apply Hc. apply Hin. }
  rewrite <- (firstn_skipn k (loader_batches l)) in H.
  apply Forall_app in H. apply H.
Qed.

Lemma fisher_loop_total (st : SamplingType) (m0 : Net) :
  NoDup (map fst (backbone m0)) ->
  forall bs m f,
  (forall b, In b bs -> exists preds, batch_labels C st m0 b = Ok preds) ->
  zero_grad m = zero_grad m0 ->
  shape_of f = param_shapes (backbone m0) ->
  exists f', fst (fisher_loop C st bs m f) = Ok f'.
Proof.
  intros Hnd. induction bs as [|b bs IH]; intros m f Hlab Hm Hs; simpl.
  - exists f. reflexivity.
  - destruct (Hlab b (or_introl eq_refl)) as [preds Hpreds].
    rewrite <- (batch_labels_same C st m m0 b Hm) in Hpreds.
    pose proof (fisher_batch_frame C st m f b) as Hfr.
    destruct (fisher_batch_value C st m f b preds Hpreds) as (f1 & E & Hs1 & _).
    { rewrite (same_weights_names m m0 Hm). exact Hnd. }
    { rewrite (same_weights_shapes m m0 Hm). exact Hs. }
    destruct (fisher_batch C st m f b) as [r m1]. simpl in E, Hfr. subst r.
    apply IH.
    + intros b' Hb'. apply Hlab. right. exact Hb'.
    + congruence.
    + congruence.
Qed.

End Returns.

Lemma mean_map_total (acc : Dict) (n_samples : Z) :
  n_samples <> 0 -> exists d, mean_map acc n_samples = Ok d.
Proof.
  intros Hn. unfold mean_map. apply mapM_total. intros kv _.
  unfold div_int. destruct (Z.eqb_spec n_samples 0); [contradiction|].
  simpl. eexists. reflexivity.
Qed.

(** X5. With the arg-max prediction as labels and at least one class,
    or with the ground truth as labels when every label of the dataset
    names a class of the network, a network with at least one head,
    distinct parameter names, a positive batch size, at least one batch
    asked for and a budget below [sys.maxsize], the estimator returns an
    estimate. *)
Theorem compute_fisher_returns {Image : Type} (C : Collab Image) (l : Loader Image)
    (s : Appr) :
  sampling_type s <> multinomial ->
  task_cls (model s) <> [] ->
  (sampling_type s = max_pred -> (0 < list_sum (task_cls (model s)))%nat) ->
  (sampling_type s = true_labels ->
   Forall (fun xy => 0 <= snd xy < Z.of_nat (list_sum (task_cls (model s))))
          (dataset l)) ->
  NoDup (map fst (backbone (model s))) ->
  0 < batch_size l ->
  0 < num_samples s \/ batch_size l <= Z.of_nat (length (dataset l)) ->
  num_samples s < sys_maxsize ->
  exists cur, fst (compute_fisher_matrix_diag C l s) = Ok cur.
Proof.
  intros Hst Hne Hpos Htrue Hnd Hb Hbudget _.
  assert (Hn : exists n, n_samples_batches s l = Ok n /\ 0 < n).
  { unfold n_samples_batches.
    destruct (Z.eqb_spec (batch_size l) 0) as [E|_]; [lia|].
    destruct (Z.ltb_spec 0 (num_samples s)) as [Hp|Hp].
    - eexists. split; [reflexivity|].
      pose proof (Z.div_pos (num_samples s) (batch_size l)). lia.
    - eexists. split; [reflexivity|].
      destruct Hbudget as [Hbad|Hlen]; [lia|].
      apply Z.div_str_pos. lia. }
  destruct Hn as (n & Hn & Hn0).
  unfold compute_fisher_matrix_diag. rewrite Hn.
  unfold islice. destruct (Z.ltb_spec n 0) as [Hneg|_]; [lia|].
  destruct (fisher_loop_total C (sampling_type s) (train (model s)) Hnd
              (firstn (Z.to_nat n) (loader_batches l)) (train (model s))
              (zero_map (backbone (model s)))) as [acc Hacc].
  { intros b Hin.
    assert (Hmem : b <> []
                   /\ (sampling_type s = true_labels ->
                       Forall (fun xy => 0 <= snd xy
                                         < Z.of_nat (list_sum (task_cls (model s)))) b)).
    { destruct (sampling_type s) eqn:Est.
      - pose proof (loader_batches_members _ l (Z.to_nat n) Hb (Htrue eq_refl)) as Hm.
        rewrite Forall_forall in Hm. destruct (Hm b Hin) as [Hb0 Hb1].
        split; [exact Hb0|intros _; exact Hb1].
      - pose proof (loader_batches_members (fun _ => True) l (Z.to_nat n) Hb
                      ltac:(apply Forall_forall; intros; exact I)) as Hm.
        rewrite Forall_forall in Hm. destruct (Hm b Hin) as [Hb0 _].
        split; [exact Hb0|discriminate].
      - contradiction. }
    destruct Hmem as [Hb0 Hb1].
    destruct (batch_labels_total C (sampling_type s) (train (model s)) b Hst Hne Hb0
                Hpos Hb1) as (preds & Hp & _).
    exists preds. exact Hp. }
  { reflexivity. }
  { apply zero_map_shape. exact Hnd. }
  destruct (fisher_loop C (sampling_type s) _ (train (model s)) _) as [r m2].
  simpl in Hacc. subst r. simpl.
  apply mean_map_total. nia.
Qed.

(** X6. A returned estimate has one entry per trainable backbone
    parameter, in the order of the parameters and of the shape of the
    parameter; a parameter that is not trainable has no entry. *)
Theorem fisher_estimate_entries {Image : Type} (C : Collab Image) (l : Loader Image)
    (s : Appr) (cur : Dict) :
  NoDup (map fst (backbone (model s))) ->
  fst (compute_fisher_matrix_diag C l s) = Ok cur ->
  shape_of cur = param_shapes (backbone (model s))
  /\ forall n p, In (n, p) (backbone (model s)) -> requires_grad p = false ->
     dict_get cur n = None.
Proof.
  intros Hnd Hcur. pose proof (compute_fisher_shape C l s cur Hnd Hcur) as Hs.
  split; [exact Hs|]. intros n p Hin Hg.
  pose proof (shape_lookup cur (backbone (model s)) n p Hs Hnd Hin) as L.
  rewrite Hg in L. exact L.
Qed.

(** X7. With a positive budget and a positive batch size at least one
    batch is asked for, and the sample count of the mean is the budget
    rounded up to the next multiple of the batch size above it:
    budget < n_samples <= budget + batch_size. *)
Theorem budget_rounding {Image : Type} (s : Appr) (l : Loader Image) (n : Z) :
  0 < batch_size l -> 0 < num_samples s ->
  n_samples_batches s l = Ok n ->
  1 <= n
  /\ num_samples s < n * batch_size l
  /\ n * batch_size l <= num_samples s + batch_size l.
Proof.
  intros Hb Hp. unfold n_samples_batches.
  destruct (Z.eqb_spec (batch_size l) 0) as [E|_]; [lia|].
  destruct (Z.ltb_spec 0 (num_samples s)) as [_|Hle]; [|lia].
  intros H. injection H as <-.
  pose proof (Z.div_mod (num_samples s) (batch_size l) ltac:(lia)) as Hdm.
  pose proof (Z.mod_pos_bound (num_samples s) (batch_size l) Hb) as Hm.
  pose proof (Z.div_pos (num_samples s) (batch_size l) ltac:(lia) Hb) as Hq.
  repeat split; nia.
Qed.

Lemma dict_set_nonempty (d : Dict) n v : dict_set d n v <> [].
Proof. destruct d as [|[k x] d]; simpl; [|destruct (String.eqb k n)]; discriminate. Qed.

Lemma dict_of_nonempty (l : list (string * Tensor)) : l <> [] -> dict_of l <> [].
Proof.
  unfold dict_of. intros Hl.
  assert (G : forall l' acc, acc <> [] ->
              fold_left (fun d kv => dict_set d (fst kv) (snd kv)) l' acc <> []).
  { induction l' as [|kv l' IH]; intros acc Hacc; simpl; [exact Hacc|].
    apply IH. apply dict_set_nonempty. }
  destruct l as [|kv l]; [contradiction|]. simpl. apply G. discriminate.
Qed.

(** X8. A batch size of zero raises [ZeroDivisionError] before
    anything is changed.  Without a budget, a dataset shorter than one
    batch has no batch consumed and the mean of every trainable
    parameter divides by zero (torch fills the estimate with nan). *)
Theorem compute_fisher_division_by_zero {Image : Type} (C : Collab Image)
    (l : Loader Image) (s : Appr) :
  (batch_size l = 0 ->
   compute_fisher_matrix_diag C l s = (Err ZeroDivisionError, s))
  /\ (0 < batch_size l -> num_samples s <= 0 ->
      Z.of_nat (length (dataset l)) < batch_size l ->
      forall n p, In (n, p) (backbone (model s)) -> requires_grad p = true ->
      n_samples_batches s l = Ok 0
      /\ islice l 0 = Ok []
      /\ fst (compute_fisher_matrix_diag C l s) = Err NotFinite).
Proof.
  split.
  - intros Hb. unfold compute_fisher_matrix_diag, n_samples_batches.
    rewrite Hb. reflexivity.
  - intros Hb Hbudget Hshort n p Hin Hg.
    assert (Hn : n_samples_batches s l = Ok 0).
    { unfold n_samples_batches.
      destruct (Z.eqb_spec (batch_size l) 0) as [E|_]; [lia|].
      destruct (Z.ltb_spec 0 (num_samples s)) as [Hp|_]; [lia|].
      rewrite Z.div_small by lia. reflexivity. }
    split; [exact Hn|]. split; [reflexivity|].
    unfold compute_fisher_matrix_diag. rewrite Hn. simpl.
    assert (Hz : zero_map (backbone (model s)) <> []).
    { unfold zero_map. apply dict_of_nonempty. intros E.
      apply map_eq_nil in E.
      assert (Hf : In (n, p) (filter (fun np => requires_grad (snd np))
                                (backbone (model s))))
        by (apply filter_In; split; assumption).
      rewrite E in Hf. exact Hf. }
    destruct (zero_map (backbone (model s))) as [|kv d]; [contradiction|].
    reflexivity.
Qed.

(** X9. Unless the batch size is zero, the estimator and the post-task
    processing leave the network in training mode, whatever their
    outcome. *)
Theorem estimator_leaves_training_mode {Image : Type} (C : Collab Image) (t : nat)
    (l : Loader Image) (s : Appr) :
  batch_size l <> 0 ->
  training (model (snd (compute_fisher_matrix_diag C l s))) = true
  /\ training (model (snd (post_train_process C t l s))) = true.
Proof.
  intros Hb.
  assert (G : forall s0, training (model (snd (compute_fisher_matrix_diag C l s0)))
                         = true).
  { intros s0. unfold compute_fisher_matrix_diag, n_samples_batches.
    destruct (Z.eqb_spec (batch_size l) 0) as [E|_]; [contradiction|].
    destruct (Z.ltb 0 (num_samples s0)).
    - destruct (islice l _) as [bs|e]; [|reflexivity].
      pose proof (fisher_loop_frame C (sampling_type s0) bs (train (model s0))
                    (zero_map (backbone (model s0)))) as Hf.
      destruct (fisher_loop C _ bs _ _) as [r m2]. simpl in *.
      apply (f_equal training) in Hf. exact Hf.
    - destruct (islice l _) as [bs|e]; [|reflexivity].
      pose proof (fisher_loop_frame C (sampling_type s0) bs (train (model s0))
                    (zero_map (backbone (model s0)))) as Hf.
      destruct (fisher_loop C _ bs _ _) as [r m2]. simpl in *.
      apply (f_equal training) in Hf. exact Hf. }
  split; [apply G|].
  unfold post_train_process.
  specialize (G (set_older_params s (snapshot (backbone (model s))))).
  destruct (compute_fisher_matrix_diag C l _) as [[cur|e] s2]; simpl in *.
  - destruct (loop _ _ _) as [r f]. exact G.
  - exact G.
Qed.

(** ** [post_train_process] *)

Lemma loop_app {A S : Type} (f : S -> A -> Res S) (l1 l2 : list A) (acc : S) :
  loop f (l1 ++ l2) acc
  = match loop f l1 acc with
    | (Ok _, acc') => loop f l2 acc'
    | (Err e, acc') => (Err e, acc')
    end.
Proof.
  revert acc. induction l1 as [|x l1 IH]; intros acc; simpl; [reflexivity|].
  destruct (f acc x) as [acc'|e]; [apply IH|reflexivity].
Qed.

Section PostTrainMore.

Context {Image : Type} (C : Collab Image).

(** The processing once the estimate is returned: the fusion loop runs
    on the Importance Map the processing found, in an object whose
    Snapshot is replaced. *)
Lemma post_train_unfold (t : nat) (l : Loader Image) (s : Appr) (cur : Dict) :
  fst (compute_fisher_matrix_diag C l s) = Ok cur ->
  exists s2,
    fusion_weight s2 t = fusion_weight s t
    /\ post_train_process C t l s
       = (fst (loop (fuse_step s2 t cur) (dict_keys (fisher s)) (fisher s)),
          set_fisher s2 (snd (loop (fuse_step s2 t cur) (dict_keys (fisher s))
                                (fisher s)))).
Proof.
  intros Hcur. unfold post_train_process.
  set (s1 := set_older_params s (snapshot (backbone (model s)))).
  pose proof (compute_fisher_older C l s (snapshot (backbone (model s)))) as Hfst.
  fold s1 in Hfst. rewrite Hcur in Hfst.
  destruct (compute_fisher_frame C l s1) as (Hm & _ & Hf & Hal & _).
  destruct (compute_fisher_matrix_diag C l s1) as [r s2]. simpl in Hfst, Hm, Hf, Hal.
  subst r. change (fisher s1) with (fisher s) in Hf.
  change (alpha s1) with (alpha s) in Hal. change (model s1) with (model s) in Hm.
  exists s2. split.
  - apply fusion_weight_frame; [exact Hal|]. apply task_cls_frame. exact Hm.
  - rewrite Hf. destruct (loop _ _ _) as [r f]. reflexivity.
Qed.

Lemma fuse_step_shape (s : Appr) (t : nat) (cur f f' : Dict) (n : string) :
  shape_of f = shape_of cur -> fuse_step s t cur f n = Ok f' ->
  shape_of f' = shape_of f.
Proof.
  intros Hs. unfold fuse_step, dict_item.
  destruct (fusion_weight s t) as [a|e]; simpl; [|discriminate].
  destruct (dict_get f n) as [old|] eqn:Hold; simpl; [|discriminate].
  destruct (same_shape_get f cur n old Hs Hold) as (c & Hc & Hl).
  rewrite Hc. simpl. rewrite add_scaled by exact Hl. simpl.
  intros H. injection H as <-.
  apply (dict_set_shape f n _ old Hold). apply fuse_length. exact Hl.
Qed.

(** The maps after the processing have the shape of the network,
    whatever the outcome and whatever the Snapshot held. *)
Lemma post_train_parity (t : nat) (l : Loader Image) (s : Appr) :
  NoDup (map fst (backbone (model s))) ->
  shape_of (fisher s) = param_shapes (backbone (model s)) ->
  parity (snd (post_train_process C t l s)).
Proof.
  intros Hnd Hs.
  destruct (post_train_snapshot C t l s) as [Hm Ho].
  assert (Hf : shape_of (fisher (snd (post_train_process C t l s)))
               = shape_of (fisher s)).
  { unfold post_train_process.
    set (s1 := set_older_params s (snapshot (backbone (model s)))).
    destruct (compute_fisher_frame C l s1) as (_ & _ & Hf & _).
    pose proof (fun cur => compute_fisher_shape C l s1 cur Hnd) as Hc.
    destruct (compute_fisher_matrix_diag C l s1) as [[cur|e] s2]; simpl in *.
    - specialize (Hc cur eq_refl).
      pose proof (loop_inv (fun f => shape_of f = shape_of (fisher s))
                    (fuse_step s2 t cur) (dict_keys (fisher s2)) (fisher s2)) as Hl.
      destruct (loop (fuse_step s2 t cur) (dict_keys (fisher s2)) (fisher s2))
        as [r f].
      simpl in *. apply Hl.
      + intros f0 n f1 _ Hf0 Hstep.
        rewrite (fuse_step_shape s2 t cur f0 f1 n); [exact Hf0| |exact Hstep].
        congruence.
      + rewrite Hf. reflexivity.
    - rewrite Hf. reflexivity. }
  unfold parity. split; [|split].
  - rewrite <- (names_frame (model (snd (post_train_process C t l s)))), Hm,
      names_frame. exact Hnd.
  - rewrite Hf, Hs.
    rewrite <- (param_shapes_frame (model s)), <- Hm, param_shapes_frame.
    reflexivity.
  - rewrite Ho, (snapshot_shape _ Hnd).
    rewrite <- (param_shapes_frame (model s)), <- Hm, param_shapes_frame.
    reflexivity.
Qed.

End PostTrainMore.

(** X10. When the parameter names are distinct and the Importance Map
    has the shape of the trainable backbone parameters, the post-task
    processing leaves a Snapshot and an Importance Map of that shape:
    the invariant of the data model holds after it, whatever its
    outcome and whatever the Snapshot held before. *)
Theorem post_train_keeps_parity {Image : Type} (C : Collab Image) (t : nat)
    (l : Loader Image) (s : Appr) :
  NoDup (map fst (backbone (model s))) ->
  shape_of (fisher s) = param_shapes (backbone (model s)) ->
  parity (snd (post_train_process C t l s)).
Proof. apply post_train_parity. Qed.

Lemma weighted_zero_drift (k : nat) (f : Tensor) :
  sum (zip_with Qcmult f (map (fun x => x * x)%Qc (repeat (qz 0) k))) = 0%Qc.
Proof.
  revert f. induction k as [|k IH]; intros [|x f]; simpl; try reflexivity.
  rewrite sum_cons, IH, qz_0. ring.
Qed.

Lemma weighted_drift_self (f p : Tensor) : weighted_drift f p p = 0%Qc.
Proof.
  unfold weighted_drift. rewrite minus_self. apply weighted_zero_drift.
Qed.

Lemma sum_zero_terms {A : Type} (g : A -> Qc) (l : list A) :
  (forall x, In x l -> g x = 0%Qc) -> sum (map g l) = 0%Qc.
Proof.
  induction l as [|x l IH]; intros H; simpl; [reflexivity|].
  rewrite sum_cons, (H x (or_introl eq_refl)), IH; [ring|].
  intros y Hy. apply H. right. exact Hy.
Qed.

(** X11. Right after a post-task processing that did not divide by
    zero (it returned, or raised an exception), before any training
    step, the drift of every parameter is zero and the loss is the
    classification term, up to its exceptions, for every task index.
    After a division by zero the Importance Map of the code holds nan,
    and so does the loss. *)
Theorem criterion_after_snapshot {Image : Type} (C : Collab Image) (t : nat)
    (l : Loader Image) (s : Appr) (t' : nat) (outputs : list Logits)
    (targets : list Z) :
  NoDup (map fst (backbone (model s))) ->
  shape_of (fisher s) = param_shapes (backbone (model s)) ->
  fst (post_train_process C t l s) <> Err NotFinite ->
  criterion C (snd (post_train_process C t l s)) t' outputs targets
  = classification_term C (snd (post_train_process C t l s)) t' outputs targets.
Proof.
  intros Hnd Hs _.
  pose proof (post_train_parity C t l s Hnd Hs) as Hp.
  destruct (post_train_snapshot C t l s) as [Hm Ho].
  set (s' := snd (post_train_process C t l s)) in *.
  assert (Hsnap : older_params s' = snapshot (backbone (model s'))).
  { rewrite Ho. rewrite <- (snapshot_frame (model s)), <- Hm, snapshot_frame.
    reflexivity. }
  assert (Hzero : ewc_sum s' = 0%Qc).
  { unfold ewc_sum. apply sum_zero_terms. intros [n p] Hin. unfold ewc_term. simpl.
    destruct Hp as (Hnd' & HF & HO).
    pose proof (shape_lookup _ _ n p HO Hnd' Hin) as LO.
    destruct (dict_get (fisher s') n) as [f|]; [|reflexivity].
    destruct (requires_grad p) eqn:Hg.
    - rewrite Hsnap, (snapshot_lookup _ n p Hnd' Hin Hg).
      apply weighted_drift_self.
    - rewrite LO. reflexivity. }
  unfold criterion. destruct t' as [|t'].
  - rewrite penalty_first_task. simpl.
    destruct (classification_term C s' 0 outputs targets) as [c|e]; simpl;
      [|reflexivity].
    f_equal. rewrite qz_0. ring.
  - rewrite penalty_parity by (try exact Hp; lia). simpl.
    destruct (classification_term C s' (S t') outputs targets) as [c|e]; simpl;
      [|reflexivity].
    f_equal. rewrite Hzero. ring.
Qed.

(** X12. When the estimate lacks a name of the Importance Map (a
    parameter frozen or removed since construction), the processing
    raises [KeyError] at the first such name: the tensors under the
    names before it are fused already, those from it on are as they
    were, and the Snapshot is replaced already. *)
Theorem post_train_missing_estimate {Image : Type} (C : Collab Image) (t : nat)
    (l : Loader Image) (s : Appr) (cur : Dict) (a : Qc)
    (pre post : Dict) (n : string) (v : Tensor) :
  fst (compute_fisher_matrix_diag C l s) = Ok cur ->
  fusion_weight s t = Ok a ->
  fisher s = pre ++ (n, v) :: post ->
  NoDup (dict_keys (fisher s)) ->
  (forall k old, In (k, old) pre ->
                 exists c, dict_get cur k = Some c /\ length old = length c) ->
  dict_get cur n = None ->
  fst (post_train_process C t l s) = Err (KeyError n)
  /\ (forall k old c, In (k, old) pre -> dict_get cur k = Some c ->
      dict_get (fisher (snd (post_train_process C t l s))) k = Some (fuse a old c))
  /\ (forall k, ~ In k (dict_keys pre) ->
      dict_get (fisher (snd (post_train_process C t l s))) k = dict_get (fisher s) k)
  /\ older_params (snd (post_train_process C t l s)) = snapshot (backbone (model s)).
Proof.
  intros Hcur Ha Hsplit Hnd Hpre Hmiss.
  destruct (post_train_snapshot C t l s) as [_ Ho].
  destruct (post_train_unfold C t l s cur Hcur) as (s2 & Hw & Hrun).
  rewrite Ha in Hw. rewrite Hrun. cbn [fst snd fisher set_fisher].
  rewrite Hrun in Ho. cbn [snd older_params set_fisher] in Ho.
  assert (Hkeys : dict_keys (fisher s) = dict_keys pre ++ n :: dict_keys post).
  { rewrite Hsplit. unfold dict_keys. rewrite map_app. reflexivity. }
  rewrite Hkeys in *. rewrite loop_app.
  assert (Hnd1 : NoDup (dict_keys pre)).
  { apply NoDup_app_remove_r in Hnd. exact Hnd. }
  assert (Hn : ~ In n (dict_keys pre)).
  { apply NoDup_remove_2 in Hnd. intros Hin. apply Hnd. apply in_or_app.
    left. exact Hin. }
  assert (Hlook : forall k old, In (k, old) pre -> dict_get (fisher s) k = Some old).
  { intros k old Hin. apply assoc_in_nodup.
    - fold (dict_keys (fisher s)). rewrite Hsplit. unfold dict_keys.
      rewrite map_app. exact Hnd.
    - rewrite Hsplit. apply in_or_app. left. exact Hin. }
  destruct (fuse_loop s2 t cur a Hw (dict_keys pre) (fisher s) Hnd1)
    as (Hr & _ & Hin & Hout).
  { intros k Hk. unfold dict_keys in Hk. apply in_map_iff in Hk.
    destruct Hk as ([k' old] & E & Hk). simpl in E. subst k'.
    destruct (Hpre k old Hk) as (c & Hc & Hl).
    exists old, c. repeat split; [apply (Hlook k old Hk)|exact Hc|exact Hl]. }
  destruct (loop (fuse_step s2 t cur) (dict_keys pre) (fisher s)) as [r f1].
  simpl in Hr, Hin, Hout. subst r.
  assert (Hstep : fuse_step s2 t cur f1 n = Err (KeyError n)).
  { unfold fuse_step, dict_item. rewrite Hw. simpl.
    rewrite (Hout n Hn).
    assert (Hv : dict_get (fisher s) n = Some v).
    { apply assoc_in_nodup.
      - fold (dict_keys (fisher s)). rewrite Hsplit. unfold dict_keys.
        rewrite map_app. exact Hnd.
      - rewrite Hsplit. apply in_or_app. right. left. reflexivity. }
    rewrite Hv. simpl. rewrite Hmiss. reflexivity. }
  simpl. rewrite Hstep. simpl.
  split; [reflexivity|]. split; [|split; [exact Hout|exact Ho]].
  intros k old c Hk Hc. apply Hin; [|apply (Hlook k old Hk)|exact Hc].
  apply (in_map fst) in Hk. exact Hk.
Qed.

(** X13. The post-task processing never changes the names of the
    Importance Map, whatever its outcome: a parameter without entry
    before has none after. *)
Theorem importance_keys_fixed {Image : Type} (C : Collab Image) (t : nat)
    (l : Loader Image) (s : Appr) :
  dict_keys (fisher (snd (post_train_process C t l s))) = dict_keys (fisher s)
  /\ forall n, dict_get (fisher s) n = None ->
     dict_get (fisher (snd (post_train_process C t l s))) n = None.
Proof.
  assert (Hk : dict_keys (fisher (snd (post_train_process C t l s)))
               = dict_keys (fisher s)).
  { unfold post_train_process.
    set (s1 := set_older_params s (snapshot (backbone (model s)))).
    destruct (compute_fisher_frame C l s1) as (_ & _ & Hf & _).
    destruct (compute_fisher_matrix_diag C l s1) as [[cur|e] s2]; simpl in *;
      [|rewrite Hf; reflexivity].
    pose proof (loop_inv (fun f => dict_keys f = dict_keys (fisher s))
                  (fuse_step s2 t cur) (dict_keys (fisher s2)) (fisher s2)) as Hl.
    destruct (loop (fuse_step s2 t cur) (dict_keys (fisher s2)) (fisher s2)) as [r f].
    simpl in *. apply Hl; [|rewrite Hf; reflexivity].
    intros f0 n f1 _ Hf0. unfold fuse_step, dict_item.
    destruct (fusion_weight s2 t) as [a|e]; simpl; [|discriminate].
    destruct (dict_get f0 n) as [old|] eqn:Hold; simpl; [|discriminate].
    destruct (dict_get cur n) as [c|]; simpl; [|discriminate].
    destruct (add _ _) as [v|e]; simpl; [|discriminate].
    intros H. injection H as <-. rewrite dict_set_keys; [exact Hf0|].
    apply (assoc_some_key _ _ _ Hold). }
  split; [exact Hk|]. intros n Hn.
  destruct (dict_get (fisher (snd (post_train_process C t l s))) n) as [v|] eqn:Hv;
    [|reflexivity].
  apply assoc_some_key in Hv. fold (dict_keys (fisher (snd (post_train_process C t l s))))
    in Hv.
  rewrite Hk in Hv. destruct (key_get _ _ Hv) as [v' Hv']. congruence.
Qed.

Lemma qz_nonzero (z : Z) : 0 < z -> qz z <> 0%Qc.
Proof.
  intros Hz E. pose proof (qz_pos z Hz) as Hp. rewrite E in Hp.
  apply (Qclt_not_le _ _ Hp). apply Qcle_refl.
Qed.

Section Extreme.

Context {Image : Type} (C : Collab Image).

(** With the weight 0 the Importance Map becomes the estimate, with
    the weight 1 it stays as it is. *)
Lemma post_train_extreme (t : nat) (l : Loader Image) (s : Appr) (cur : Dict) (a : Qc) :
  NoDup (map fst (backbone (model s))) ->
  shape_of (fisher s) = param_shapes (backbone (model s)) ->
  fst (compute_fisher_matrix_diag C l s) = Ok cur ->
  fusion_weight s t = Ok a ->
  (a = qz 0 -> fisher (snd (post_train_process C t l s)) = cur)
  /\ (a = qz 1 -> fisher (snd (post_train_process C t l s)) = fisher s).
Proof.
  intros Hnd Hs Hcur Ha.
  destruct (post_train_fused C t l s cur a Hnd Hs Hcur Ha) as (_ & Hsh & Hshc & Hget).
  pose proof (fisher_keys_nodup s Hnd Hs) as Hkeys.
  split; intros Hval; apply dict_ext.
  - apply same_shape_keys. congruence.
  - rewrite (same_shape_keys _ _ Hsh). exact Hkeys.
  - intros n Hn. rewrite (same_shape_keys _ _ Hsh) in Hn.
    destruct (key_get _ _ Hn) as [old Hold].
    destruct (Hget n old Hold) as (c & Hc & Hl & Hnew).
    rewrite Hnew, Hc, Hval, fuse_zero by exact Hl. reflexivity.
  - apply same_shape_keys. exact Hsh.
  - rewrite (same_shape_keys _ _ Hsh). exact Hkeys.
  - intros n Hn. rewrite (same_shape_keys _ _ Hsh) in Hn.
    destruct (key_get _ _ Hn) as [old Hold].
    destruct (Hget n old Hold) as (c & _ & Hl & Hnew).
    rewrite Hnew, Hold, Hval, fuse_one by exact Hl. reflexivity.
Qed.

End Extreme.

(** X14. In class-proportional mode (alpha = -1) with a non-zero class
    total, the weight of task 0 is 0, so the update of task 0 makes the
    Importance Map the estimate; for a task index at or beyond the
    length of [task_cls] the weight is 1, so the update ignores the
    estimate. *)
Theorem class_weight_edges {Image : Type} (C : Collab Image) (l : Loader Image)
    (s : Appr) (cur : Dict) :
  alpha s = qz (-1) -> (0 < list_sum (task_cls (model s)))%nat ->
  fusion_weight s 0 = Ok (qz 0)
  /\ (forall t, (length (task_cls (model s)) <= t)%nat -> fusion_weight s t = Ok (qz 1))
  /\ (NoDup (map fst (backbone (model s))) ->
      shape_of (fisher s) = param_shapes (backbone (model s)) ->
      fst (compute_fisher_matrix_diag C l s) = Ok cur ->
      fisher (snd (post_train_process C 0 l s)) = cur
      /\ forall t, (length (task_cls (model s)) <= t)%nat ->
         fisher (snd (post_train_process C t l s)) = fisher s).
Proof.
  intros Hmode Hpos.
  assert (Hw : forall t, fusion_weight s t
                 = Ok (qz (Z.of_nat (list_sum (firstn t (task_cls (model s)))))
                       / qz (Z.of_nat (list_sum (task_cls (model s)))))%Qc).
  { intros t. unfold fusion_weight.
    destruct (Qc_eq_dec (alpha s) (qz (-1))); [|contradiction].
    unfold class_alpha.
    destruct (task_cls (model s)) as [|x cls]; [simpl in Hpos; lia|].
    destruct (Nat.eqb_spec (list_sum (x :: cls)) 0) as [E|_]; [lia|reflexivity]. }
  assert (H0 : fusion_weight s 0 = Ok (qz 0)).
  { rewrite Hw. simpl. f_equal. unfold Qcdiv. rewrite qz_0. ring. }
  assert (H1 : forall t, (length (task_cls (model s)) <= t)%nat ->
                         fusion_weight s t = Ok (qz 1)).
  { intros t Ht. rewrite Hw, firstn_all2 by exact Ht. f_equal.
    unfold Qcdiv. rewrite qz_1. apply Qcmult_inv_r. apply qz_nonzero. lia. }
  split; [exact H0|]. split; [exact H1|].
  intros Hnd Hs Hcur. split.
  - apply (proj1 (post_train_extreme C 0 l s cur (qz 0) Hnd Hs Hcur H0)). reflexivity.
  - intros t Ht.
    apply (proj2 (post_train_extreme C t l s cur (qz 1) Hnd Hs Hcur (H1 t Ht))).
    reflexivity.
Qed.

(** ** [_get_optimizer] *)

Lemma head_refs_in (h h' : nat) (d : Dict) (n : string) :
  In (HeadParam h n) (head_refs h' d) <-> h = h' /\ In n (dict_keys d).
Proof.
  unfold head_refs, dict_keys. rewrite !in_map_iff. split.
  - intros (kv & E & Hin). injection E as -> <-. split; [reflexivity|].
    exists kv. split; [reflexivity|exact Hin].
  - intros (-> & kv & <- & Hin). exists kv. split; [reflexivity|exact Hin].
Qed.

Lemma combine_seq_nth {A : Type} (a : nat) (l : list A) (h : nat) (x : A) :
  nth_error l h = Some x -> In ((a + h)%nat, x) (combine (seq a (length l)) l).
Proof.
  revert a h. induction l as [|y l IH]; intros a [|h] H; simpl in *; try discriminate.
  - injection H as ->. left. rewrite Nat.add_0_r. reflexivity.
  - right. replace (a + S h)%nat with (S a + h)%nat by lia. apply IH. exact H.
Qed.

(** X15. The optimizer always holds every backbone parameter.  Without
    exemplars and with more than one head it holds, of the heads, the
    parameters of the last head only: the heads of the tasks before are
    not trained.  With exemplars, or with at most one head, it holds
    the parameters of every head. *)
Theorem optimizer_parameters (s : Appr) :
  (forall n, In n (map fst (backbone (model s))) ->
             In (BackboneParam n) (_get_optimizer s))
  /\ (exemplars_len s = 0%nat -> (1 < length (heads (model s)))%nat ->
      forall h n,
      In (HeadParam h n) (_get_optimizer s)
      <-> h = (length (heads (model s)) - 1)%nat
          /\ In n (dict_keys (last (heads (model s)) [])))
  /\ ((0 < exemplars_len s)%nat \/ (length (heads (model s)) <= 1)%nat ->
      forall h d n, nth_error (heads (model s)) h = Some d -> In n (dict_keys d) ->
      In (HeadParam h n) (_get_optimizer s)).
Proof.
  split; [|split].
  - intros n Hn. unfold _get_optimizer.
    assert (Hb : In (BackboneParam n) (backbone_refs (model s))).
    { unfold backbone_refs. apply in_map_iff in Hn. destruct Hn as (np & <- & Hin).
      apply in_map_iff. exists np. split; [reflexivity|exact Hin]. }
    destruct (_ && _); [|unfold model_parameters]; apply in_or_app; left; exact Hb.
  - intros He Hh h n. unfold _get_optimizer. rewrite He.
    destruct (Nat.ltb_spec 1 (length (heads (model s)))) as [_|]; [|lia]. simpl.
    rewrite in_app_iff, head_refs_in. split.
    + intros [Hb|H]; [|exact H]. unfold backbone_refs in Hb.
      apply in_map_iff in Hb. destruct Hb as (np & E & _). discriminate E.
    + intros H. right. exact H.
  - intros Hcase h d n Hd Hn. unfold _get_optimizer.
    assert (Hcond : Nat.eqb (exemplars_len s) 0
                    && Nat.ltb 1 (length (heads (model s))) = false).
    { destruct Hcase as [He|Hh].
      - destruct (Nat.eqb_spec (exemplars_len s) 0); [lia|reflexivity].
      - destruct (Nat.ltb_spec 1 (length (heads (model s)))); [lia|].
        apply andb_false_r. }
    rewrite Hcond. unfold model_parameters. apply in_or_app. right.
    apply in_concat. exists (head_refs h d). split.
    + apply in_map_iff. exists (h, d). split; [reflexivity|].
      apply (combine_seq_nth 0 (heads (model s)) h d Hd).
    + apply head_refs_in. split; [reflexivity|exact Hn].
Qed.

(** ** [train_loop] *)

(** X16. The training stream is the loader it was given for task 0 or
    without exemplars.  Otherwise it is a loader of the same batch size
    over the examples of the loader and the exemplars, every one of
    them once, which keeps its last partial batch also when the loader
    it was given drops it, and has no fewer batches. *)
Theorem train_loop_stream {Image : Type}
    (shuffle : list (Image * Z) -> list (Image * Z)) (t : nat)
    (l : Loader Image) (ex : list (Image * Z)) :
  (forall x, Permutation (shuffle x) x) ->
  (t = 0%nat \/ ex = [] -> train_loop_loader shuffle t l ex = l)
  /\ ((0 < t)%nat -> ex <> [] ->
      batch_size (train_loop_loader shuffle t l ex) = batch_size l
      /\ Permutation (dataset (train_loop_loader shuffle t l ex)) (dataset l ++ ex)
      /\ (0 < batch_size l ->
          length (loader_batches (train_loop_loader shuffle t l ex))
          = ((length (dataset l) + length ex + Z.to_nat (batch_size l) - 1)
             / Z.to_nat (batch_size l))%nat
          /\ (length (loader_batches l)
              <= length (loader_batches (train_loop_loader shuffle t l ex)))%nat)).
Proof.
  intros Hperm. unfold train_loop_loader. split.
  - intros [E|E]; subst; simpl; [|reflexivity].
    rewrite andb_false_r. reflexivity.
  - intros Ht Hex.
    destruct (Nat.ltb_spec 0 (length ex)) as [_|Hle];
      [|destruct ex; [contradiction|simpl in Hle; lia]].
    destruct (Nat.ltb_spec 0 t) as [_|]; [|lia]. simpl.
    split; [reflexivity|]. split; [apply Hperm|].
    intros Hb.
    assert (Hlen : length (shuffle (dataset l ++ ex))
                   = (length (dataset l) + length ex)%nat).
    { rewrite (Permutation_length (Hperm _)). apply length_app. }
    assert (Hnew : length (loader_batches
                             {| batch_size := batch_size l;
                                dataset := shuffle (dataset l ++ ex);
                                drop_last := false |})
                   = ((length (dataset l) + length ex + Z.to_nat (batch_size l) - 1)
                      / Z.to_nat (batch_size l))%nat).
    { rewrite loader_batches_length by exact Hb. simpl. rewrite Hlen. reflexivity. }
    split; [exact Hnew|]. rewrite Hnew, (loader_batches_length l Hb).
    destruct (drop_last l); apply Nat.Div0.div_le_mono; lia.
Qed.

(** ** [compute_orth_loss] *)

Lemma sum_map_scale {A : Type} (g : A -> Qc) (c : Qc) (l : list A) :
  sum (map (fun a => g a * c)%Qc l) = (sum (map g l) * c)%Qc.
Proof.
  induction l as [|x l IH]; simpl.
  - rewrite sum_nil. ring.
  - rewrite !sum_cons, IH. ring.
Qed.

Lemma for_each_app {A S : Type} (f : S -> A -> Res S) (l1 l2 : list A) (acc : S) :
  for_each f (l1 ++ l2) acc = (acc' <- for_each f l1 acc ;; for_each f l2 acc').
Proof.
  revert acc. induction l1 as [|x l1 IH]; intros acc; simpl; [reflexivity|].
  destruct (f acc x) as [acc'|e]; simpl; [apply IH|reflexivity].
Qed.

Lemma for_each_ext {A S : Type} (f g : S -> A -> Res S) (l : list A) (acc : S) :
  (forall a x, In x l -> f a x = g a x) -> for_each f l acc = for_each g l acc.
Proof.
  revert acc. induction l as [|x l IH]; intros acc H; simpl; [reflexivity|].
  rewrite (H acc x (or_introl eq_refl)).
  destruct (g acc x) as [acc'|e]; simpl; [|reflexivity].
  apply IH. intros a y Hy. apply H. right. exact Hy.
Qed.

Section OrthLossFacts.

Variable sqrt : Qc -> Qc.

(** The term of a layer is its index times its term at weight 1. *)
Lemma orth_term_weight (i : nat) (al ol : list Tensor) (u : Qc) :
  orth_term sqrt 1 al ol = Ok u ->
  orth_term sqrt i al ol = Ok (qz (Z.of_nat i) * u)%Qc.
Proof.
  unfold orth_term. destruct (sub_maps al ol) as [d|e]; simpl; [|discriminate].
  unfold mean. rewrite !length_map.
  destruct (Nat.eqb (@length (list Qc) d) 0); [intros H; discriminate H|].
  intros H. injection H as <-. f_equal.
  rewrite (sum_map_scale (fun a => matrix_norm sqrt (map (fun x => x + eps)%Qc a))).
  rewrite (sum_map_scale (fun a => matrix_norm sqrt (map (fun x => x + eps)%Qc a))).
  unfold Qcdiv. simpl. rewrite qz_1. ring.
Qed.

Lemma orth_step_value (olds atts : list Tensor) (tot : Qc) (i : nat) (u : Qc) :
  layer_distance sqrt olds atts i u ->
  orth_step sqrt olds atts tot i = Ok (tot + qz (Z.of_nat i) * u)%Qc.
Proof.
  intros (a & o & al & ol & Ha & Hal & Ho & Hol & Hu).
  unfold orth_step, index. rewrite Ha. simpl. rewrite Hal. simpl.
  rewrite Ho. simpl. rewrite Hol. simpl.
  rewrite (orth_term_weight i al ol u Hu). reflexivity.
Qed.

Lemma orth_loop_value (olds atts : list Tensor) (u : nat -> Qc) (k a : nat) (tot : Qc) :
  (forall i, (a <= i < a + k)%nat -> layer_distance sqrt olds atts i (u i)) ->
  for_each (orth_step sqrt olds atts) (seq a k) tot
  = Ok (tot + sum (map (fun i => qz (Z.of_nat i) * u i) (seq a k)))%Qc.
Proof.
  revert a tot. induction k as [|k IH]; intros a tot H; simpl.
  - rewrite sum_nil. f_equal. ring.
  - rewrite (orth_step_value olds atts tot a (u a)) by (apply H; lia). simpl.
    rewrite IH by (intros i Hi; apply H; lia).
    rewrite sum_cons. f_equal. ring.
Qed.

End OrthLossFacts.

(** X17. When every layer is well formed, the loss is the sum over the
    layers from index 1 on of (index of the layer) * (mean norm of the
    difference of its maps): the first layer has the weight 0 and adds
    nothing. *)
Theorem orth_loss_layer_weights (sqrt : Qc -> Qc) (olds atts : list Tensor)
    (u : nat -> Qc) :
  (forall i, (i < length atts)%nat -> layer_distance sqrt olds atts i (u i)) ->
  compute_orth_loss sqrt olds atts
  = Ok (sum (map (fun i => qz (Z.of_nat i) * u i)%Qc (seq 1 (length atts - 1)))).
Proof.
  intros H. unfold compute_orth_loss.
  rewrite (orth_loop_value sqrt olds atts u) by (intros i Hi; apply H; lia).
  f_equal. destruct (length atts) as [|n]; simpl.
  - rewrite sum_nil, qz_0. ring.
  - rewrite sum_cons, Nat.sub_0_r, qz_0. ring.
Qed.

(** X18. The list of old attention maps is read at the indices of the
    new list only: old maps beyond them are ignored, and an old list
    that is shorter raises [IndexError] at the first layer it lacks,
    after the layers before it were accepted. *)
Theorem orth_loss_old_list (sqrt : Qc -> Qc) (olds atts extra : list Tensor)
    (u : nat -> Qc) :
  ((length atts <= length olds)%nat ->
   compute_orth_loss sqrt (olds ++ extra) atts = compute_orth_loss sqrt olds atts)
  /\ ((length olds < length atts)%nat ->
      (forall i, (i < length olds)%nat -> layer_distance sqrt olds atts i (u i)) ->
      (exists a al, nth_error atts (length olds) = Some a /\ view_attention a = Ok al) ->
      compute_orth_loss sqrt olds atts = Err IndexError).
Proof.
  split.
  - intros Hlen. unfold compute_orth_loss. apply for_each_ext.
    intros tot i Hi. apply in_seq in Hi. unfold orth_step, index.
    rewrite (nth_error_app1 olds extra) by lia. reflexivity.
  - intros Hlen Hlayers (a & al & Ha & Hal). unfold compute_orth_loss.
    replace (length atts)
      with (length olds + S (length atts - S (length olds)))%nat by lia.
    rewrite seq_app, for_each_app.
    rewrite (orth_loop_value sqrt olds atts u) by (intros i Hi; apply Hlayers; lia).
    simpl. unfold orth_step at 1, index. rewrite Ha. simpl. rewrite Hal. simpl.
    assert (Hnone : nth_error olds (length olds) = None)
      by (apply nth_error_None; lia).
    rewrite Hnone. reflexivity.
Qed.

(** * The further properties at concrete configurations *)

Lemma criterion_lambda_zero_witness :
  criterion Example.collab Scenario.unweighted 1 Example.outputs Example.targets
  = classification_term Example.collab Scenario.unweighted 1 Example.outputs
      Example.targets
  /\ exists e, criterion Example.collab Scenario.unweighted_missing 1 Example.outputs
                 Example.targets = Err e.
Proof.
  split.
  - apply (proj1 (criterion_lambda_zero Example.collab Scenario.unweighted 1
                    Example.outputs Example.targets eq_refl ltac:(lia))).
    reflexivity.
  - apply (proj2 (criterion_lambda_zero Example.collab Scenario.unweighted_missing 1
                    Example.outputs Example.targets eq_refl ltac:(lia))).
    reflexivity.
Defined.

Lemma criterion_at_least_classification_witness :
  exists r, criterion Example.collab Example.ewc_state 1 Example.outputs Example.targets
            = Ok (qz 7 + r)%Qc /\ (0 <= r)%Qc.
Proof.
  apply (criterion_at_least_classification Example.collab Example.ewc_state 1
           Example.outputs Example.targets (qz 7)).
  - unfold parity. split; [distinct_names|split; reflexivity].
  - repeat constructor; unfold Qcle, Qle; simpl; lia.
  - unfold Qcle, Qle. simpl. lia.
  - reflexivity.
Defined.

Lemma criterion_task_index_witness :
  criterion Example.collab Example.joint_state 1 Example.outputs Example.targets
  = criterion Example.collab Example.joint_state 2 Example.outputs Example.targets
  /\ criterion Example.collab Example.ewc_state 5 Example.outputs Example.targets
     = Err IndexError.
Proof.
  split.
  - apply (proj1 (criterion_task_index Example.collab Example.joint_state
                    Example.outputs Example.targets)); simpl; lia.
  - apply (proj2 (criterion_task_index Example.collab Example.ewc_state
                    Example.outputs Example.targets) eq_refl 5%nat (qz 4000)).
    + qc_value.
    + left. simpl. lia.
Defined.

Lemma fisher_estimate_value_witness :
  dict_get Example.estimate "w1"
  = Some (map (fun x => x / qz (2 * 1))%Qc
              (squares_sum Example.collab max_pred (train Example.net)
                 [[(tt, 0)]; [(tt, 1)]] "w1" 1)).
Proof.
  apply (fisher_estimate_value Example.collab Example.loader Example.ewc_state
           Example.estimate 2 [[(tt, 0)]; [(tt, 1)]]
           ltac:(distinct_names) eq_refl eq_refl
           ltac:(apply estimate_eqb_eq; vm_compute; reflexivity)
           "w1"%string (Example.param [qz 1])).
  - left. reflexivity.
  - reflexivity.
Defined.

Lemma compute_fisher_returns_witness :
  exists cur, fst (compute_fisher_matrix_diag Example.collab Example.odd_loader
                     Scenario.supervised) = Ok cur.
Proof.
  apply compute_fisher_returns.
  - discriminate.
  - discriminate.
  - intros _. simpl. lia.
  - intros _. repeat (constructor; [simpl; lia|]). constructor.
  - distinct_names.
  - simpl. lia.
  - left. simpl. lia.
  - vm_compute. reflexivity.
Defined.

Lemma fisher_estimate_entries_witness :
  shape_of Scenario.frozen_estimate = [("w1"%string, 1%nat)]
  /\ dict_get Scenario.frozen_estimate "w2" = None.
Proof.
  destruct (fisher_estimate_entries Example.collab Example.loader Scenario.frozen
              Scenario.frozen_estimate ltac:(distinct_names)
              ltac:(apply estimate_eqb_eq; vm_compute; reflexivity)) as [Hs Hnone].
  split; [exact Hs|].
  apply (Hnone "w2"%string {| value := [qz 3]; requires_grad := false; grad := None |}).
  - right. left. reflexivity.
  - reflexivity.
Defined.

Lemma budget_rounding_witness :
  1 <= 4 /\ 7 < 4 * 2 /\ 4 * 2 <= 7 + 2.
Proof.
  apply (budget_rounding Scenario.budgeted Example.odd_loader 4).
  - simpl. lia.
  - simpl. lia.
  - reflexivity.
Defined.

Lemma compute_fisher_division_by_zero_witness :
  compute_fisher_matrix_diag Example.collab Scenario.unbatched_loader Example.ewc_state
  = (Err ZeroDivisionError, Example.ewc_state)
  /\ fst (compute_fisher_matrix_diag Example.collab Scenario.short_loader
            Example.ewc_state) = Err NotFinite.
Proof.
  split.
  - apply (proj1 (compute_fisher_division_by_zero Example.collab
                    Scenario.unbatched_loader Example.ewc_state)).
    reflexivity.
  - apply (proj2 (compute_fisher_division_by_zero Example.collab
                    Scenario.short_loader Example.ewc_state)
             ltac:(simpl; lia) ltac:(simpl; lia) ltac:(simpl; lia)
             "w1"%string (Example.param [qz 1]) (or_introl eq_refl) eq_refl).
Defined.

Lemma estimator_leaves_training_mode_witness :
  training (model Example.ewc_state) = false
  /\ training (model (snd (post_train_process Example.collab 1 Example.loader
                             Example.ewc_state))) = true.
Proof.
  split; [reflexivity|].
  apply (proj2 (estimator_leaves_training_mode Example.collab 1 Example.loader
                  Example.ewc_state ltac:(simpl; lia))).
Defined.

Lemma post_train_keeps_parity_witness :
  parity (snd (post_train_process Example.collab 1 Example.loader Example.ewc_state)).
Proof.
  apply post_train_keeps_parity; [distinct_names|reflexivity].
Defined.

Lemma criterion_after_snapshot_witness :
  criterion Example.collab
    (snd (post_train_process Example.collab 1 Example.loader Example.ewc_state))
    1 Example.outputs Example.targets
  = classification_term Example.collab
      (snd (post_train_process Example.collab 1 Example.loader Example.ewc_state))
      1 Example.outputs Example.targets.
Proof.
  apply criterion_after_snapshot; [distinct_names|reflexivity|].
  vm_compute. discriminate.
Defined.

Lemma post_train_missing_estimate_witness :
  fst (post_train_process Example.collab 1 Example.loader Scenario.frozen)
  = Err (KeyError "w2")
  /\ dict_get (fisher (snd (post_train_process Example.collab 1 Example.loader
                              Scenario.frozen))) "w1"
     = Some (fuse half [qz 4] [qz 4]).
Proof.
  destruct (post_train_missing_estimate Example.collab 1 Example.loader
              Scenario.frozen Scenario.frozen_estimate half
              [("w1"%string, [qz 4])] [] "w2"%string [qz 4]
              ltac:(apply estimate_eqb_eq; vm_compute; reflexivity)
              ltac:(qc_value) eq_refl ltac:(distinct_names))
    as (Hr & Hget & _).
  - intros k old [E|[]]. injection E as <- <-. exists [qz 4]. split; reflexivity.
  - reflexivity.
  - split; [exact Hr|]. apply (Hget "w1"%string [qz 4] [qz 4]).
    + left. reflexivity.
    + reflexivity.
Defined.

Lemma importance_keys_fixed_witness :
  dict_get (fisher (snd (post_train_process Example.collab 1 Example.loader
                           Example.restructured))) "w2" = None.
Proof.
  apply (proj2 (importance_keys_fixed Example.collab 1 Example.loader
                  Example.restructured)).
  reflexivity.
Defined.

Lemma class_weight_edges_witness :
  fusion_weight Example.class_state 0 = Ok (qz 0)
  /\ fusion_weight Example.class_state 3 = Ok (qz 1)
  /\ fisher (snd (post_train_process Example.collab 0 Example.loader
                    Example.class_state)) = Example.estimate.
Proof.
  destruct (class_weight_edges Example.collab Example.loader Example.class_state
              Example.estimate eq_refl ltac:(simpl; lia)) as (H0 & H1 & Hpost).
  split; [exact H0|]. split; [apply H1; simpl; lia|].
  apply (proj1 (Hpost ltac:(distinct_names) eq_refl
                  ltac:(apply estimate_eqb_eq; vm_compute; reflexivity))).
Defined.

Lemma optimizer_parameters_witness :
  In (BackboneParam "w1") (_get_optimizer (Scenario.headed 0))
  /\ ~ In (HeadParam 0 "weight") (_get_optimizer (Scenario.headed 0))
  /\ In (HeadParam 1 "weight") (_get_optimizer (Scenario.headed 0))
  /\ In (HeadParam 0 "weight") (_get_optimizer (Scenario.headed 4)).
Proof.
  split; [|split; [|split]].
  - apply (proj1 (optimizer_parameters (Scenario.headed 0))). left. reflexivity.
  - intros H.
    apply (proj1 (proj2 (optimizer_parameters (Scenario.headed 0))) eq_refl
             ltac:(simpl; lia)) in H.
    destruct H as [H _]. discriminate H.
  - apply (proj1 (proj2 (optimizer_parameters (Scenario.headed 0))) eq_refl
             ltac:(simpl; lia)).
    split; [reflexivity|left; reflexivity].
  - apply (proj2 (proj2 (optimizer_parameters (Scenario.headed 4)))
             ltac:(left; simpl; lia) 0%nat [("weight"%string, [qz 1; qz 2])]).
    + reflexivity.
    + left. reflexivity.
Defined.

Lemma train_loop_stream_witness :
  train_loop_loader (fun x => x) 0 Scenario.dropping_loader [(tt, 1)]
  = Scenario.dropping_loader
  /\ length (loader_batches Scenario.dropping_loader) = 2%nat
  /\ length (loader_batches
               (train_loop_loader (fun x => x) 1 Scenario.dropping_loader [(tt, 1)]))
     = ((5 + 1 + 2 - 1) / 2)%nat.
Proof.
  destruct (train_loop_stream (fun x : list (unit * Z) => x) 0
              Scenario.dropping_loader [(tt, 1)]
              (fun x => Permutation_refl x)) as [H0 _].
  destruct (train_loop_stream (fun x : list (unit * Z) => x) 1
              Scenario.dropping_loader [(tt, 1)]
              (fun x => Permutation_refl x)) as [_ H1].
  split; [apply H0; left; reflexivity|]. split; [reflexivity|].
  destruct (H1 ltac:(lia) ltac:(discriminate)) as (_ & _ & Hb).
  apply (proj1 (Hb ltac:(simpl; lia))).
Defined.

Lemma attention_size_pos : (0 < attention_size)%nat.
Proof. unfold attention_size. lia. Qed.

Lemma chunks_exact {A : Type} (k : nat) (l : list A) :
  (0 < k)%nat -> length l = k -> chunks k l = [l].
Proof.
  intros Hk Hl. unfold chunks. destruct l as [|x l]; [simpl in Hl; lia|].
  subst k. cbn [length chunks_fuel].
  change (S (length l)) with (length (x :: l)).
  rewrite firstn_all, skipn_all. destruct (length l); reflexivity.
Qed.

Lemma view_attention_single (a : Tensor) :
  length a = attention_size -> view_attention a = Ok [a].
Proof.
  intros Ha. unfold view_attention. rewrite Ha.
  pose proof attention_size_pos as Hp.
  destruct (Nat.eqb_spec attention_size 0) as [E|_]; [lia|].
  rewrite Nat.Div0.mod_same. cbn [Nat.eqb negb orb].
  rewrite (chunks_exact attention_size a Hp Ha). reflexivity.
Qed.

Lemma head_layer_distance (sqrt : Qc -> Qc) (z : Tensor) (olds atts : list Tensor) :
  length z = attention_size ->
  layer_distance sqrt (z :: olds) (z :: atts) 0 (single_distance sqrt z).
Proof.
  intros Hz. exists z, z, [z], [z].
  split; [reflexivity|]. split; [apply view_attention_single; exact Hz|].
  split; [reflexivity|]. split; [apply view_attention_single; exact Hz|].
  reflexivity.
Qed.

Lemma tail_layer_distance (sqrt : Qc -> Qc) (o a : Tensor) (olds atts : list Tensor)
    (i : nat) (u : Qc) :
  layer_distance sqrt olds atts i u ->
  layer_distance sqrt (o :: olds) (a :: atts) (S i) u.
Proof.
  intros (a' & o' & al & ol & H). exists a', o', al, ol. exact H.
Qed.

Lemma orth_loss_layer_weights_witness :
  compute_orth_loss (fun x => x)
    [Scenario.flat_attention; Scenario.flat_attention]
    [Scenario.flat_attention; Scenario.flat_attention]
  = Ok (sum (map (fun i => qz (Z.of_nat i)
                           * single_distance (fun x => x) Scenario.flat_attention)%Qc
                 (seq 1 1))).
Proof.
  apply (orth_loss_layer_weights (fun x => x)
           [Scenario.flat_attention; Scenario.flat_attention]
           [Scenario.flat_attention; Scenario.flat_attention]
           (fun _ => single_distance (fun x => x) Scenario.flat_attention)).
  intros [|[|i]] Hi.
  - apply head_layer_distance. apply zeros_length.
  - apply tail_layer_distance. apply head_layer_distance. apply zeros_length.
  - exfalso. cbn [length] in Hi. lia.
Defined.

Lemma orth_loss_old_list_witness :
  compute_orth_loss (fun x => x)
    ([Scenario.flat_attention] ++ [Scenario.flat_attention]) [Scenario.flat_attention]
  = compute_orth_loss (fun x => x) [Scenario.flat_attention] [Scenario.flat_attention]
  /\ compute_orth_loss (fun x => x) [Scenario.flat_attention]
       [Scenario.flat_attention; Scenario.flat_attention]
     = Err IndexError.
Proof.
  split.
  - apply (proj1 (orth_loss_old_list (fun x => x) [Scenario.flat_attention]
                    [Scenario.flat_attention] [Scenario.flat_attention]
                    (fun _ => qz 0))).
    apply le_n.
  - apply (proj2 (orth_loss_old_list (fun x => x) [Scenario.flat_attention]
                    [Scenario.flat_attention; Scenario.flat_attention] []
                    (fun _ => single_distance (fun x => x) Scenario.flat_attention))).
    + apply le_n.
    + intros [|i] Hi; [|exfalso; cbn [length] in Hi; lia].
      apply head_layer_distance. apply zeros_length.
    + exists Scenario.flat_attention, [Scenario.flat_attention].
      split; [reflexivity|]. apply view_attention_single. apply zeros_length.
Defined.
